(** * BlockSuite database block, database toolbar search and edgeless drag handle

    A shallow embedding of

    - [DatabaseBlockModel] (database-model.ts): column and cell lookups, cell
      upsert and the bulk column operations over the shared [yCells] map;
    - [DatabaseToolbar._onSearch] / [_resetSearchStatus] (toolbar.ts);
    - the [onDropCallback] of [createDragHandle] (create-drag-handle.ts);

    followed by the properties established about them. *)

From Stdlib Require Import Ascii.
From stdpp Require Import gmap strings list fin_maps pretty.

Open Scope string_scope.

(** ** JavaScript values and completions *)

Module JS.

(** A thrown exception.  [TypeError] is what the runtime raises on a property
    access on [null]/[undefined], on spreading a non-iterable or on calling a
    missing method; [AssertionError] is what [assertExists] raises. *)
Inductive Exception := TypeError | AssertionError.

(** The completion of a piece of code: it returns a result or throws.  The
    state left behind by a throw is not modelled. *)
Inductive Outcome (A : Type) :=
| Returns (a : A)
| Throws (e : Exception).
Arguments Returns {A} a.
Arguments Throws {A} e.

#[global] Instance outcome_ret : MRet Outcome := λ A a, Returns a.
#[global] Instance outcome_bind : MBind Outcome :=
  λ A B f m, match m with Returns a => f a | Throws e => Throws e end.

(** Modelled from the spec: [SelectTag], declared outside of the sources; a
    plain object of which the code reads the [value] field.  Objects have an
    identity ([tag_ref], the reference) next to their content: [===] and
    [Array.prototype.indexOf] compare objects by reference. *)
Record SelectTag := mkTag { tag_ref : nat; tag_value : string }.

(** The values a cell can hold ([unknown] in the source).  Numbers are the
    integers; [VText] is a [Y.Text] with the given content. *)
#[warnings="-register-all"] Inductive JsValue :=
| VUndefined
| VNull
| VBool (b : bool)
| VNum (n : Z)
| VStr (s : string)
| VTag (t : SelectTag)
| VArr (items : list JsValue)
| VText (s : string).

(** [!value] *)
Definition js_falsy (v : JsValue) : bool :=
  match v with
  | VUndefined | VNull | VBool false | VNum 0 | VStr "" => true
  | _ => false
  end.

(** [value[0]] for a value that passed the [!value] guard: the first element
    of an array, the first character of a string, [undefined] on anything else
    that is not [null]/[undefined] (those are falsy and never get here). *)
Definition js_index0 (v : JsValue) : JsValue :=
  match v with
  | VArr (x :: _) => x
  | VStr (String c _) => VStr (String c "")
  | _ => VUndefined
  end.

(** [value + ''] *)
Fixpoint js_to_string (v : JsValue) : string :=
  match v with
  | VUndefined => "undefined"
  | VNull => "null"
  | VBool true => "true"
  | VBool false => "false"
  | VNum n => pretty n
  | VStr s => s
  | VTag _ => "[object Object]"
  | VArr items =>
      String.concat ","
        (map (λ x, match x with
                   | VUndefined | VNull => ""
                   | _ => js_to_string x
                   end) items)
  | VText s => s
  end.

(** [item.value]: a [TypeError] on [null]/[undefined], the field of a tag,
    [undefined] on every other value. *)
Definition js_get_value (item : JsValue) : Outcome JsValue :=
  match item with
  | VUndefined | VNull => Throws TypeError
  | VTag t => Returns (VStr (tag_value t))
  | _ => Returns VUndefined
  end.

(** [item === tag] for an object [tag]: reference equality. *)
Definition js_strict_eq_tag (item : JsValue) (tag : SelectTag) : bool :=
  match item with
  | VTag t => bool_decide (tag_ref t = tag_ref tag)
  | _ => false
  end.

(** [v === s] for a string [s]. *)
Definition js_strict_eq_str (v : JsValue) (s : string) : bool :=
  match v with
  | VStr s' => bool_decide (s' = s)
  | _ => false
  end.

(** [items.indexOf(tag)]: the first position holding the very object [tag],
    [-1] when there is none. *)
Fixpoint js_indexOf (items : list JsValue) (tag : SelectTag) : Z :=
  match items with
  | [] => -1
  | x :: rest =>
      if js_strict_eq_tag x tag then 0
      else let i := js_indexOf rest tag in
           if bool_decide (i = -1)%Z then -1 else (1 + i)%Z
  end.

(** [items[index] = v] on an array.  In range it overwrites; past the end it
    grows the array, the gap reading [undefined]; a negative [index] sets the
    property of that name on the array object and leaves its elements and its
    length alone. *)
Definition js_array_assign (items : list JsValue) (index : Z) (v : JsValue)
  : list JsValue :=
  if bool_decide (index < 0)%Z then items
  else if bool_decide (index < Z.of_nat (length items))%Z
       then <[Z.to_nat index := v]> items
  else (items ++ replicate (Z.to_nat index - length items) VUndefined ++ [v])%list.

Fixpoint string_chars (s : string) : list JsValue :=
  match s with
  | "" => []
  | String c rest => VStr (String c "") :: string_chars rest
  end.

(** [[...value]]: arrays and strings are iterable, the other values here are
    not. *)
Definition js_spread (v : JsValue) : Outcome (list JsValue) :=
  match v with
  | VArr items => Returns items
  | VStr s => Returns (string_chars s)
  | _ => Throws TypeError
  end.

(** [items.filter(pred)] with a predicate that may throw. *)
Fixpoint filterM {A} (pred : A → Outcome bool) (l : list A) : Outcome (list A) :=
  match l with
  | [] => Returns []
  | x :: rest =>
      b ← pred x; ys ← filterM pred rest;
      Returns (if b : bool then x :: ys else ys)
  end.

End JS.

Export JS.

(** ** The database block model (database-model.ts) *)

Module DatabaseModel.

(** A cell is stored as a [Y.Map] with the entries ['columnId'] and ['value'];
    a row is the [Y.Map] of its cells by column id; [yCells] maps row ids to
    rows ([SerializedCells] in the source). *)
Abbreviation YMap := (gmap string JsValue).
Abbreviation YRow := (gmap string (gmap string JsValue)).
Abbreviation YCells := (gmap string (gmap string (gmap string JsValue))).

(** Modelled from the spec: [Cell], declared outside of the sources, as the
    callers pass it: [{ columnId, value }]. *)
Record Cell := mkCell { columnId : string; value : JsValue }.

(** The object [getCell] builds: both fields are what the stored map holds. *)
Record CellObject := mkCellObject { co_columnId : JsValue; co_value : JsValue }.

Definition cell_object (cell : Cell) : CellObject :=
  {| co_columnId := VStr (columnId cell); co_value := value cell |}.

Inductive ColumnType := Select | RichText.

(** Modelled from the spec: the shared document store behind [this.page] and
    the [Y.Map]s, which is not part of the sources.  The block's two shared
    maps, whether a transaction is open, and the change-event notification
    cycles delivered to the subscribers so far (newest first), each with the
    state the subscribers see during it. *)
Record Page := mkPage {
  yCells : YCells;
  yColumns : YMap;
  inTransaction : bool;
  notifications : list (YCells * YMap);
}.

Definition with_yCells (f : YCells → YCells) (p : Page) : Page :=
  {| yCells := f (yCells p); yColumns := yColumns p;
     inTransaction := inTransaction p; notifications := notifications p |}.

Definition with_inTransaction (b : bool) (p : Page) : Page :=
  {| yCells := yCells p; yColumns := yColumns p;
     inTransaction := b; notifications := notifications p |}.

(** Modelled from the spec: one notification cycle, in which the subscribers
    see the current state. *)
Definition notify (p : Page) : Page :=
  {| yCells := yCells p; yColumns := yColumns p;
     inTransaction := inTransaction p;
     notifications := (yCells p, yColumns p) :: notifications p |}.

(** Modelled from the spec: a write inside an open transaction is held back
    until the transaction ends; a write outside of any is a unit of its own. *)
Definition after_write (p : Page) : Page :=
  if inTransaction p then p else notify p.

(** Modelled from the spec: [page.transact(fn)] runs [fn]; all the mutations
    inside are one unit for change-event purposes, delivered when the
    outermost transaction ends. *)
Definition transact (fn : Page → Outcome Page) (p : Page) : Outcome Page :=
  if inTransaction p then fn p
  else q ← fn (with_inTransaction true p);
       mret (notify (with_inTransaction false q)).

(** [ymap.get(key)] *)
Definition ymap_get (m : YMap) (key : string) : JsValue :=
  default VUndefined (m !! key).

(** [this.yCells.set(rowId, yRow)] *)
Definition yCells_set (rowId : string) (yRow : YRow) (p : Page) : Page :=
  after_write (with_yCells (insert rowId yRow) p).

(** The rows are shared objects: a row reference is modelled by the row's key
    in [yCells], and reads and writes through it go to the row in the store.
    [yRow.get(key)]: *)
Definition yRow_get (yRow : string) (key : string) (p : Page) : option YMap :=
  yCells p !! yRow ≫= λ row, row !! key.

(** [yRow.set(key, yCell)] *)
Definition yRow_set (yRow : string) (key : string) (yCell : YMap) (p : Page)
  : Page :=
  after_write (with_yCells (alter (insert key yCell) yRow) p).


Fixpoint forEach_rows (f : string → Page → Outcome Page) (rows : list string)
  (p : Page) : Outcome Page :=
  match rows with
  | [] => mret p
  | yRow :: rest => q ← f yRow p; forEach_rows f rest q
  end.

(** [this.yCells.forEach(yRow => ...)]: the callback runs once per row of the
    map, each time on the store as the previous runs left it.  The rows come
    in the order of [map_to_list]; the callbacks here touch the row they are
    given and no other, so the order does not show in the result. *)
Definition yCells_forEach (f : string → Page → Outcome Page) (p : Page)
  : Outcome Page :=
  forEach_rows f (map_to_list (yCells p)).*1 p.

(** [new Y.Map()] followed by [set('columnId', ..)] and [set('value', ..)]. *)
Definition new_yCell (columnId : string) (value : JsValue) : YMap :=
  <["value" := value]> (<["columnId" := VStr columnId]> ∅).


(** [getCell(rowId, columnId)]; [None] is the [null] result. *)
Definition getCell (rowId columnId : string) (p : Page) : option CellObject :=
  match yCells p !! rowId ≫= λ yRow, yRow !! columnId with
  | None => None
  | Some yCell =>
      Some {| co_columnId := ymap_get yCell "columnId";
              co_value := ymap_get yCell "value" |}
  end.

(** [updateCell(rowId, cell)] *)
Definition updateCell (rowId : string) (cell : Cell) (p : Page) : Outcome Page :=
  let hasRow := bool_decide (is_Some (yCells p !! rowId)) in
  transact (λ q,
    let q := if hasRow then q else yCells_set rowId ∅ q in
    mret (yRow_set rowId (columnId cell)
            (new_yCell (columnId cell) (value cell)) q)) p.

(** [copyCellsByColumn(fromId, toId)] *)
Definition copyCellsByColumn (fromId toId : string) : Page → Outcome Page :=
  transact (yCells_forEach (λ yRow q,
    match yRow_get yRow fromId q with
    | Some yCell =>
        mret (yRow_set yRow toId (new_yCell toId (ymap_get yCell "value")) q)
    | None => mret q
    end)).


(** [convertCellsByColumn(columnId, newType)] *)
Definition convertCellsByColumn (columnId : string) (newType : ColumnType)
  : Page → Outcome Page :=
  transact (yCells_forEach (λ yRow q,
    match yRow_get yRow columnId q with
    | None => mret q
    | Some yCell =>
        match newType with
        | Select =>
            let value := ymap_get yCell "value" in
            if js_falsy value then mret q
            else mret (yRow_set yRow columnId
                         (new_yCell columnId (VArr [js_index0 value])) q)
        | RichText =>
            let value := ymap_get yCell "value" in
            if js_falsy value then mret q
            else mret (yRow_set yRow columnId
                         (new_yCell columnId (VText (js_to_string value))) q)
        end
    end)).

(** [renameSelectedCellTag(columnId, oldValue, newValue)] *)
Definition renameSelectedCellTag (columnId : string)
  (oldValue newValue : SelectTag) : Page → Outcome Page :=
  transact (yCells_forEach (λ yRow q,
    match yRow_get yRow columnId q with
    | None => mret q
    | Some yCell =>
        let selected := ymap_get yCell "value" in
        newSelected ← js_spread selected;
        let index := js_indexOf newSelected oldValue in
        let newSelected := js_array_assign newSelected index (VTag newValue) in
        mret (yRow_set yRow columnId (new_yCell columnId (VArr newSelected)) q)
    end)).

(** [selected.filter(item => item.value !== target.value)]: only an array has
    the method. *)
Definition filter_tag (selected : JsValue) (target : SelectTag)
  : Outcome (list JsValue) :=
  match selected with
  | VArr items =>
      filterM (λ item,
        v ← js_get_value item;
        mret (negb (js_strict_eq_str v (tag_value target)))) items
  | _ => Throws TypeError
  end.

(** [deleteSelectedCellTag(columnId, target)] *)
Definition deleteSelectedCellTag (columnId : string) (target : SelectTag)
  : Page → Outcome Page :=
  transact (yCells_forEach (λ yRow q,
    match yRow_get yRow columnId q with
    | None => mret q
    | Some yCell =>
        let selected := ymap_get yCell "value" in
        _ ← js_spread selected;
        newSelected ← filter_tag selected target;
        mret (yRow_set yRow columnId (new_yCell columnId (VArr newSelected)) q)
    end)).

(** [this.yCells.toJSON()]: the maps become plain objects and a [Y.Text]
    becomes its string. *)
Definition toJSON (v : JsValue) : JsValue :=
  match v with
  | VText s => VStr s
  | _ => v
  end.

Definition serializedCells (p : Page) : YCells :=
  (λ yRow : YRow, (λ yCell : YMap, toJSON <$> yCell) <$> yRow) <$> yCells p.

(** *** The bulk operations seen row by row

    What one run of each [forEach] callback makes of the row it is given. *)

Definition copy_row (fromId toId : string) (row : YRow) : YRow :=
  match row !! fromId with
  | Some yCell => <[toId := new_yCell toId (ymap_get yCell "value")]> row
  | None => row
  end.


Definition converted (newType : ColumnType) (value : JsValue) : JsValue :=
  match newType with
  | Select => VArr [js_index0 value]
  | RichText => VText (js_to_string value)
  end.

Definition convert_row (columnId : string) (newType : ColumnType) (row : YRow)
  : YRow :=
  match row !! columnId with
  | None => row
  | Some yCell =>
      let value := ymap_get yCell "value" in
      if js_falsy value then row
      else <[columnId := new_yCell columnId (converted newType value)]> row
  end.

Definition rename_row (columnId : string) (oldValue newValue : SelectTag)
  (row : YRow) : Outcome YRow :=
  match row !! columnId with
  | None => mret row
  | Some yCell =>
      newSelected ← js_spread (ymap_get yCell "value");
      mret (<[columnId :=
                new_yCell columnId
                  (VArr (js_array_assign newSelected
                           (js_indexOf newSelected oldValue) (VTag newValue)))]>
              row)
  end.

Definition deleteTag_row (columnId : string) (target : SelectTag) (row : YRow)
  : Outcome YRow :=
  match row !! columnId with
  | None => mret row
  | Some yCell =>
      let selected := ymap_get yCell "value" in
      _ ← js_spread selected;
      newSelected ← filter_tag selected target;
      mret (<[columnId := new_yCell columnId (VArr newSelected)]> row)
  end.

(** A [forEach] callback [body] acts on the row it is given as [step] says,
    and on nothing else. *)
Definition implements (body : string → Page → Outcome Page)
  (step : YRow → Outcome YRow) : Prop :=
  ∀ yRow q row,
    inTransaction q = true → yCells q !! yRow = Some row →
    body yRow q = row' ← step row; mret (with_yCells (insert yRow row') q).

(** [result] is what a bulk operation started on [p] ends with when every row
    goes through [step] and nothing else changes: it throws only if [step]
    throws on a row, and when the operation opened the transaction itself
    there is one new notification, of the final state. *)
Definition acts_row_wise (step : YRow → Outcome YRow) (p : Page)
  (result : Outcome Page) : Prop :=
  match result with
  | Returns q =>
      (∀ k, match yCells p !! k with
            | Some row => ∃ row', step row = Returns row' ∧
                                  yCells q !! k = Some row'
            | None => yCells q !! k = None
            end) ∧
      yColumns q = yColumns p ∧ inTransaction q = inTransaction p ∧
      notifications q =
        (if inTransaction p then notifications p
         else (yCells q, yColumns q) :: notifications p)
  | Throws e => ∃ k row, yCells p !! k = Some row ∧ step row = Throws e
  end.


(** *** The invariant of the cell table

    The ['columnId'] entry of a stored cell is the key the cell is stored
    under. *)
Definition keyed (columnId : string) (yCell : YMap) : bool :=
  match yCell !! "columnId" with
  | Some (VStr s) => bool_decide (s = columnId)
  | _ => false
  end.

Definition row_keyed (row : YRow) : Prop :=
  map_Forall (λ columnId yCell, keyed columnId yCell = true) row.

Definition cells_keyed (p : Page) : Prop :=
  map_Forall (λ _ row, row_keyed row) (yCells p).

#[global] Instance cells_keyed_dec p : Decision (cells_keyed p).
Proof. unfold cells_keyed, row_keyed. apply _. Defined.

(** *** A small table

    Two rows: [r1] with the cell [{columnId: 'a', value: 12}], the select
    cell [col] holding the tags A and C and the cell [list] holding
    [['x','y','z']]; [r2] with no cell. *)
Definition tag_A : SelectTag := {| tag_ref := 1; tag_value := "A" |}.
Definition tag_C : SelectTag := {| tag_ref := 2; tag_value := "C" |}.

(** Two more tag objects, as a caller builds them: a second object with the
    value A, and one with the value B. *)
Definition fresh_A : SelectTag := {| tag_ref := 3; tag_value := "A" |}.
Definition tag_B : SelectTag := {| tag_ref := 4; tag_value := "B" |}.

Definition example_page : Page :=
  {| yCells :=
       {[ "r1" := {[ "a" := new_yCell "a" (VNum 12);
                     "col" := new_yCell "col" (VArr [VTag tag_A; VTag tag_C]);
                     "list" := new_yCell "list"
                                 (VArr [VStr "x"; VStr "y"; VStr "z"]) ]};
          "r2" := ∅ ]};
     yColumns := ∅;
     inTransaction := false;
     notifications := [] |}.

(** *** What the tag operations need of the cells of a column *)

(** [null] or [undefined] *)
Definition js_nullish (v : JsValue) : bool :=
  match v with
  | VUndefined | VNull => true
  | _ => false
  end.

(** An array or a string: what [[...value]] accepts. *)
Definition js_spreadable (v : JsValue) : bool :=
  match v with
  | VArr _ | VStr _ => true
  | _ => false
  end.

(** Every cell stored under [columnId], in whatever row, holds a value that
    [ok] accepts. *)
Definition column_holds (ok : JsValue → bool) (columnId : string) (p : Page)
  : Prop :=
  ∀ rowId yCell,
    yRow_get rowId columnId p = Some yCell → ok (ymap_get yCell "value") = true.

(** From [p] to [q] no row came or went, the column definitions stayed, and
    no cell outside of the column [columnId] changed. *)
Definition only_column (columnId : string) (p q : Page) : Prop :=
  yColumns q = yColumns p ∧
  (∀ rowId, is_Some (yCells q !! rowId) ↔ is_Some (yCells p !! rowId)) ∧
  ∀ rowId other, other ≠ columnId →
    yRow_get rowId other q = yRow_get rowId other p.

End DatabaseModel.

(** ** The database toolbar search (toolbar.ts) *)

Module Toolbar.
Import DatabaseModel.

(** Modelled from the spec: [SearchState] (types.ts, not among the sources),
    the four modes of the search box. *)
Inductive SearchState := SearchIcon | SearchInput | Searching | Action.

(** A child block of the database block, that is a row: its id and, when it
    has one, the content of its [text]. *)
Record BlockModel := mkBlock { id : string; text : option string }.

(** The toolbar with what it reads and writes: the children and the store of
    [targetModel], the [searchState] property, the row ids that
    [setFilteredRowIds] received last, and the value of [_searchInput].  The
    two setters are callbacks of the owning component; they store their
    argument. *)
Record DatabaseToolbar := mkToolbar {
  children : list BlockModel;
  page : Page;
  searchState : SearchState;
  filteredRowIds : list string;
  searchInputValue : string;
}.

Definition setSearchState (state : SearchState) (tb : DatabaseToolbar)
  : DatabaseToolbar :=
  {| children := children tb; page := page tb; searchState := state;
     filteredRowIds := filteredRowIds tb;
     searchInputValue := searchInputValue tb |}.

Definition setFilteredRowIds (rowIds : list string) (tb : DatabaseToolbar)
  : DatabaseToolbar :=
  {| children := children tb; page := page tb; searchState := searchState tb;
     filteredRowIds := rowIds; searchInputValue := searchInputValue tb |}.

Definition setSearchInputValue (v : string) (tb : DatabaseToolbar)
  : DatabaseToolbar :=
  {| children := children tb; page := page tb; searchState := searchState tb;
     filteredRowIds := filteredRowIds tb; searchInputValue := v |}.

(** White space as [String.prototype.trim] strips it, within ASCII. *)
Definition is_whitespace (c : Ascii.ascii) : bool :=
  match c with
  | " " | "009" | "010" | "011" | "012" | "013" => true
  | _ => false
  end%char.

Fixpoint trimStart (s : string) : string :=
  match s with
  | "" => ""
  | String c rest => if is_whitespace c then trimStart rest else s
  end.

Definition trim (s : string) : string :=
  String.rev (trimStart (String.rev (trimStart s))).

(** [s.includes(needle)] *)
Fixpoint includes (s needle : string) : bool :=
  String.prefix needle s ||
  match s with
  | "" => false
  | String _ rest => includes rest needle
  end.

(** The flattened values of one cell of [serializedCells]: the [value] of
    every item of a list, or the value as a string. *)
Definition column_values (cell : YMap) : Outcome (list JsValue) :=
  match ymap_get cell "value" with
  | VArr items => mapM js_get_value items
  | value => mret [VStr (js_to_string value)]
  end.

(** The second loop of [_databaseMap]: the flattened cell values of every row
    are pushed onto the row's entry. *)
Fixpoint push_column_values (cells : YCells) (rowIds : list string)
  (databaseMap : gmap string (list JsValue))
  : Outcome (gmap string (list JsValue)) :=
  match rowIds with
  | [] => mret databaseMap
  | rowId :: rest =>
      match cells !! rowId with
      | None => push_column_values cells rest databaseMap
      | Some columnMap =>
          columnValues ← mapM column_values (map_to_list columnMap).*2;
          push_column_values cells rest
            (alter (λ values, (values ++ concat columnValues)%list) rowId
               databaseMap)
      end
  end.

(** [get _databaseMap()] *)
Definition _databaseMap (tb : DatabaseToolbar)
  : Outcome (gmap string (list JsValue)) :=
  let databaseMap :=
    foldl (λ dm child, <[id child := [VStr (default "" (text child))]]> dm)
          ∅ (children tb) in
  push_column_values (serializedCells (page tb)) (id <$> children tb)
    databaseMap.

Section Search.

(** [String.prototype.toLocaleLowerCase] depends on the locale of the host. *)
Variable toLocaleLowerCase : string → string.

(** [item.toLocaleLowerCase().includes(inputValue.toLocaleLowerCase())] *)
Definition item_matches (inputValue : string) (item : JsValue) : Outcome bool :=
  match item with
  | VStr s => mret (includes (toLocaleLowerCase s) (toLocaleLowerCase inputValue))
  | _ => Throws TypeError
  end.

(** [items.findIndex(item => ...) > -1] *)
Fixpoint has_match (inputValue : string) (items : list JsValue) : Outcome bool :=
  match items with
  | [] => mret false
  | item :: rest =>
      b ← item_matches inputValue item;
      if b : bool then mret true else has_match inputValue rest
  end.

(** [_onSearch(event)], with [value] the [event.target.value].  The focus
    requested for the next animation frame is left out. *)
Definition _onSearch (value : string) (tb : DatabaseToolbar)
  : Outcome DatabaseToolbar :=
  let inputValue := trim value in
  let tb := setSearchState Searching tb in
  let tb := if bool_decide (inputValue = "")
            then setSearchState SearchInput tb else tb in
  databaseMap ← _databaseMap tb;
  existing ← filterM (λ entry, has_match inputValue entry.2)
                     (map_to_list databaseMap);
  let existingRowIds := existing.*1 in
  let filteredRowIds :=
    id <$> filter (λ child, id child ∈ existingRowIds) (children tb) in
  mret (setFilteredRowIds filteredRowIds tb).

End Search.

(** [_resetSearchStatus()]; the style of the search container is left out. *)
Definition _resetSearchStatus (tb : DatabaseToolbar) : DatabaseToolbar :=
  setSearchState SearchIcon (setFilteredRowIds [] (setSearchInputValue "" tb)).

(** Every entry of [_databaseMap] starts with a string, the text of the row. *)
Definition titled (databaseMap : gmap string (list JsValue)) : Prop :=
  map_Forall (λ _ items, ∃ s rest, items = VStr s :: rest) databaseMap.

(** A [toLocaleLowerCase] that lowers the letters A to Z and nothing else. *)
Definition lower_ascii (c : Ascii.ascii) : Ascii.ascii :=
  let n := nat_of_ascii c in
  if (65 <=? n)%nat && (n <=? 90)%nat then ascii_of_nat (n + 32) else c.

Fixpoint ascii_lower_case (s : string) : string :=
  match s with
  | "" => ""
  | String c rest => String (lower_ascii c) (ascii_lower_case rest)
  end.

(** A toolbar over [example_page] with the rows [r1] and [r2], in the middle
    of a search that had filtered down to [r2]. *)
Definition example_toolbar : DatabaseToolbar :=
  {| children := [ {| id := "r1"; text := Some "Hello" |};
                   {| id := "r2"; text := None |} ];
     page := example_page;
     searchState := Searching;
     filteredRowIds := ["r2"];
     searchInputValue := "x" |}.

(** A cell value that [_databaseMap] can flatten: a list has no [null] or
    [undefined] item. *)
Definition flattens (v : JsValue) : bool :=
  match v with
  | VArr items => forallb (λ item, negb (js_nullish item)) items
  | _ => true
  end.

(** Every cell of every row of the table has a value that [ok] accepts. *)
Definition rows_hold (ok : JsValue → bool) (tb : DatabaseToolbar) : Prop :=
  ∀ child row columnId yCell,
    child ∈ children tb → yCells (page tb) !! id child = Some row →
    row !! columnId = Some yCell → ok (ymap_get yCell "value") = true.

(** A toolbar over a table whose one list cell holds tags: row [r1] with the
    text Hello, the number cell [a] and the select cell [col] with the tags A
    and C; row [r2] without text and without cells. *)
Definition select_toolbar : DatabaseToolbar :=
  {| children := [ {| id := "r1"; text := Some "Hello" |};
                   {| id := "r2"; text := None |} ];
     page :=
       {| yCells :=
            {[ "r1" := {[ "a" := new_yCell "a" (VNum 12);
                          "col" := new_yCell "col"
                                     (VArr [VTag tag_A; VTag tag_C]) ]} ]};
          yColumns := ∅; inTransaction := false; notifications := [] |};
     searchState := SearchInput;
     filteredRowIds := [];
     searchInputValue := "" |}.

(** A toolbar over a table whose row [r1] has the select cell [col] holding
    [[undefined]], the list that [convertCellsByColumn(col, 'select')] makes
    of an empty list. *)
Definition broken_toolbar : DatabaseToolbar :=
  {| children := [ {| id := "r1"; text := None |} ];
     page :=
       {| yCells := {[ "r1" := {[ "col" := new_yCell "col"
                                             (VArr [VUndefined]) ]} ]};
          yColumns := ∅; inTransaction := false; notifications := [] |};
     searchState := SearchInput;
     filteredRowIds := [];
     searchInputValue := "" |}.

End Toolbar.

(** ** The drop callback of the edgeless drag handle (create-drag-handle.ts) *)

Module DragHandle.

(** Modelled from the spec: the [type] of a drop, one of ['before'],
    ['after'], ['database'] and ['none']. *)
Inductive DroppingType := TBefore | TAfter | TDatabase | TNone.

Section OnDrop.

(** Block elements, block models, points and rectangles come from the
    component layer. *)
Context {BlockElement Model Point Rect : Type}.
Context `{EqDecision BlockElement}.

(** What the callback asks of the page, of the page block and of the DOM.
    The lookups all run before the first change of the block tree (only
    [captureSync] may precede them), so they are functions of the tree the
    drop started with. *)
Variable getBlockElementsExcludeSubtrees : list BlockElement → list BlockElement.
Variable getModelByBlockElement : BlockElement → Model.
Variable isInSamePath : Model → Model → bool.
Variable getClosestFrameBlockElementById : string → option BlockElement.
Variable getRectByBlockElement : BlockElement → Rect.
Variable getParent : Model → option Model.
Variable model_id : Model → string.
Variable element_model : BlockElement → Model.

(** The calls that change the page, its undo history or the selection. *)
Inductive Effect :=
| CaptureSync
| MoveBlocks (models : list Model) (parent : Model)
    (target : option (Model * bool))
| SetSelection (frameId : string) (active : bool) (blockId : string)
    (point : Point)
| MoveBlocksToNewFrame (models : list Model) (point : Point) (rect : Rect).

(** A run of the callback: the effects performed, in order, and how it
    ended. *)
Definition Run (A : Type) : Type := list Effect * Outcome A.

Definition run_ret {A} (a : A) : Run A := ([], Returns a).

Definition run_bind {A B} (m : Run A) (k : A → Run B) : Run B :=
  match m with
  | (es, Returns a) => let '(es', r) := k a in ((es ++ es')%list, r)
  | (es, Throws e) => (es, Throws e)
  end.

Definition perform (e : Effect) : Run unit := ([e], Returns tt).

(** [assertExists(val)] *)
Definition assertExists {A} (val : option A) : Run A :=
  match val with
  | Some a => run_ret a
  | None => ([], Throws AssertionError)
  end.

(** [EditingState]: the callback reads its [model] only. *)
Record EditingState := mkEditingState { model : Model; element : BlockElement }.

(** [onDropCallback(point, blockElements, editingState, type)] *)
Definition onDropCallback (point : Point) (blockElements : list BlockElement)
  (editingState : option EditingState) (type : DroppingType) : Run unit :=
  let blockElementsExcludeSubtrees :=
    getBlockElementsExcludeSubtrees blockElements in
  match blockElementsExcludeSubtrees with
  | [] => run_ret tt
  | firstElement :: _ =>
      let models := getModelByBlockElement <$> blockElementsExcludeSubtrees in
      match models with
      | [] => run_ret tt
      | firstModel :: _ =>
          let blank_area :=
            run_bind (perform CaptureSync) (λ _,
            perform (MoveBlocksToNewFrame models point
                       (getRectByBlockElement firstElement))) in
          match editingState, type with
          | None, _ | Some _, TNone => blank_area
          | Some state, _ =>
              if bool_decide (length models = 1)
                 && isInSamePath (model state) firstModel
              then run_ret tt
              else
                let focusId := model_id firstModel in
                run_bind (assertExists (getClosestFrameBlockElementById
                                          (model_id (model state))))
                  (λ targetFrameBlock,
                run_bind (assertExists (getClosestFrameBlockElementById focusId))
                  (λ frameBlock,
                run_bind (perform CaptureSync) (λ _,
                run_bind
                  (match type with
                   | TDatabase => perform (MoveBlocks models (model state) None)
                   | _ =>
                       run_bind (assertExists (getParent (model state)))
                         (λ parent,
                          perform (MoveBlocks models parent
                            (Some (model state,
                                   match type with
                                   | TBefore => true
                                   | _ => false
                                   end))))
                   end) (λ _,
                if bool_decide (targetFrameBlock = frameBlock)
                then run_ret tt
                else perform (SetSelection
                                (model_id (element_model targetFrameBlock))
                                true focusId point)))))
          end
      end
  end.

End OnDrop.

(** A small canvas: blocks are numbered, the element and the model of block
    [n] are both [n], no selected block lies inside another, every two blocks
    count as being in the same path, every block sits in the frame [0] and has
    the parent [0]; points are pairs and the rectangle of element [n] is
    [n]. *)
Definition example_drop (point : nat * nat) (blockElements : list nat)
  (editingState : option (@EditingState nat nat)) (type : DroppingType)
  : Run (Model := nat) (Point := nat * nat) (Rect := nat) unit :=
  onDropCallback (λ els, els) (λ el, el) (λ _ _, true) (λ _, Some 0)
    (λ el, el) (λ _, Some 0) (λ m, pretty m) (λ el, el)
    point blockElements editingState type.

(** The effects that move blocks. *)
Definition is_move {Model Point Rect : Type} (e : @Effect Model Point Rect)
  : Prop :=
  match e with
  | MoveBlocks _ _ _ | MoveBlocksToNewFrame _ _ _ => True
  | _ => False
  end.

End DragHandle.

(** * Properties *)

(** ** The shared store and the row-wise view *)

Module StoreFacts.
Import DatabaseModel.

Lemma with_yCells_insert_id yRow row q :
  yCells q !! yRow = Some row → with_yCells (insert yRow row) q = q.
Proof.
  intros H. destruct q as [cells cols tx ns]. unfold with_yCells. simpl in *.
  f_equal. by apply insert_id.
Qed.

Lemma alter_as_insert (f : YRow → YRow) yRow row (cells : YCells) :
  cells !! yRow = Some row → alter f yRow cells = <[yRow := f row]> cells.
Proof.
  intros H. apply map_eq. intros k. rewrite lookup_alter, lookup_insert.
  case_decide; subst; [by rewrite H | done].
Qed.

Lemma ymap_get_new_value columnId value :
  ymap_get (new_yCell columnId value) "value" = value.
Proof. unfold ymap_get, new_yCell. by simplify_map_eq. Qed.

Lemma ymap_get_new_columnId columnId value :
  ymap_get (new_yCell columnId value) "columnId" = VStr columnId.
Proof. unfold ymap_get, new_yCell. by simplify_map_eq. Qed.

Lemma yRow_get_lookup yRow key q row :
  yCells q !! yRow = Some row → yRow_get yRow key q = row !! key.
Proof. intros H. unfold yRow_get. by rewrite H. Qed.

Lemma yRow_set_held yRow key yCell q row :
  inTransaction q = true → yCells q !! yRow = Some row →
  yRow_set yRow key yCell q = with_yCells (insert yRow (<[key := yCell]> row)) q.
Proof.
  intros Htx H. unfold yRow_set, after_write. simpl. rewrite Htx.
  unfold with_yCells. f_equal. by apply alter_as_insert.
Qed.


Lemma forEach_rows_spec body step rows q :
  implements body step → NoDup rows → inTransaction q = true →
  (∀ k, k ∈ rows → is_Some (yCells q !! k)) →
  match forEach_rows body rows q with
  | Returns q' =>
      inTransaction q' = true ∧ notifications q' = notifications q ∧
      yColumns q' = yColumns q ∧
      (∀ k, k ∉ rows → yCells q' !! k = yCells q !! k) ∧
      (∀ k row, k ∈ rows → yCells q !! k = Some row →
         ∃ row', step row = Returns row' ∧ yCells q' !! k = Some row')
  | Throws e =>
      ∃ k row, k ∈ rows ∧ yCells q !! k = Some row ∧ step row = Throws e
  end.
Proof.
  intros Himpl. revert q.
  induction rows as [|r rest IH]; intros q Hnd Htx Hdom; simpl.
  - repeat split; try done. intros k row Hk. by apply elem_of_nil in Hk.
  - apply NoDup_cons in Hnd as [Hr Hnd].
    destruct (Hdom r) as [row Hrow]; [by left|].
    rewrite (Himpl r q row Htx Hrow).
    destruct (step row) as [row'|e] eqn:Hstep; simpl.
    2:{ exists r, row. split; [by left | done]. }
    set (q1 := with_yCells (insert r row') q).
    assert (Hq1 : ∀ k, k ≠ r → yCells q1 !! k = yCells q !! k).
    { intros k Hk. unfold q1. simpl. by rewrite lookup_insert_ne. }
    specialize (IH q1 Hnd Htx).
    destruct (forEach_rows body rest q1) as [q'|e].
    + destruct IH as (Htx' & Hns & Hcols & Hout & Hin).
      { intros k Hk. rewrite Hq1; [apply Hdom; by right | by intros ->]. }
      repeat split; try done.
      * intros k Hk. apply not_elem_of_cons in Hk as [Hk1 Hk2].
        by rewrite Hout, Hq1.
      * intros k rowk Hk Hrowk. apply elem_of_cons in Hk as [->|Hk].
        -- exists row'. rewrite Hrow in Hrowk. injection Hrowk as <-.
           split; [done|]. rewrite Hout by done. unfold q1. simpl.
           by rewrite lookup_insert_eq.
        -- apply Hin; [done|]. rewrite Hq1; [done | by intros ->].
    + destruct IH as (k & rowk & Hk & Hrowk & Hthrow).
      { intros k Hk. rewrite Hq1; [apply Hdom; by right | by intros ->]. }
      exists k, rowk. split; [by right|]. split; [|done].
      rewrite <- Hq1; [done | by intros ->].
Qed.

Lemma yCells_forEach_spec body step q :
  implements body step → inTransaction q = true →
  match yCells_forEach body q with
  | Returns q' =>
      inTransaction q' = true ∧ notifications q' = notifications q ∧
      yColumns q' = yColumns q ∧
      ∀ k, match yCells q !! k with
           | Some row => ∃ row', step row = Returns row' ∧
                                 yCells q' !! k = Some row'
           | None => yCells q' !! k = None
           end
  | Throws e => ∃ k row, yCells q !! k = Some row ∧ step row = Throws e
  end.
Proof.
  intros Himpl Htx. unfold yCells_forEach.
  assert (Hkeys : ∀ k, k ∈ (map_to_list (yCells q)).*1 ↔ is_Some (yCells q !! k)).
  { intros k. rewrite list_elem_of_fmap. split.
    - intros ([k' row] & -> & Hin). apply elem_of_map_to_list in Hin. by exists row.
    - intros [row Hrow]. exists (k, row). split; [done|].
      by apply elem_of_map_to_list. }
  pose proof (forEach_rows_spec body step _ q Himpl
                (NoDup_fst_map_to_list (yCells q)) Htx) as H.
  destruct (forEach_rows body (map_to_list (yCells q)).*1 q) as [q'|e].
  - destruct H as (Htx' & Hns & Hcols & Hout & Hin); [by intros k ?%Hkeys|].
    repeat split; try done. intros k.
    destruct (yCells q !! k) as [row|] eqn:Hrow.
    + apply Hin; [|done]. apply Hkeys. by exists row.
    + rewrite Hout; [done|]. intros [? Hk]%Hkeys. congruence.
  - destruct H as (k & row & _ & Hrow & Hthrow); [by intros k ?%Hkeys|].
    by exists k, row.
Qed.

Lemma bulk_spec body step p :
  implements body step →
  acts_row_wise step p (transact (yCells_forEach body) p).
Proof.
  intros Himpl. unfold acts_row_wise, transact.
  destruct (inTransaction p) eqn:Htx.
  - pose proof (yCells_forEach_spec body step p Himpl Htx) as H.
    destruct (yCells_forEach body p) as [q|e]; [|done].
    destruct H as (Htx' & Hns & Hcols & Hrows). by rewrite Htx'.
  - pose proof (yCells_forEach_spec body step (with_inTransaction true p)
                  Himpl eq_refl) as H.
    destruct (yCells_forEach body (with_inTransaction true p)) as [q|e];
      simpl in *; [|done].
    destruct H as (Htx' & Hns & Hcols & Hrows).
    repeat split; try done. by rewrite Hns.
Qed.

Lemma acts_row_wise_total step g p result :
  acts_row_wise step p result → (∀ row, step row = Returns (g row)) →
  ∃ q, result = Returns q ∧ yCells q = g <$> yCells p ∧
       yColumns q = yColumns p ∧ inTransaction q = inTransaction p ∧
       notifications q =
         (if inTransaction p then notifications p
          else (yCells q, yColumns q) :: notifications p).
Proof.
  intros H Hg. destruct result as [q|e]; simpl in H.
  - destruct H as (Hrows & Hcols & Htx & Hns). exists q.
    repeat split; try done. apply map_eq. intros k. rewrite lookup_fmap.
    specialize (Hrows k). destruct (yCells p !! k) as [row|]; simpl; [|done].
    destruct Hrows as (row' & Hstep & ->). rewrite Hg in Hstep. congruence.
  - destruct H as (k & row & _ & Hthrow). rewrite Hg in Hthrow. discriminate.
Qed.

Lemma copyCellsByColumn_row_wise fromId toId p :
  acts_row_wise (λ row, mret (copy_row fromId toId row)) p
    (copyCellsByColumn fromId toId p).
Proof.
  apply bulk_spec. intros yRow q row Htx Hrow. simpl.
  rewrite (yRow_get_lookup _ _ _ _ Hrow). unfold copy_row.
  destruct (row !! fromId) as [yCell|]; simpl.
  - by rewrite (yRow_set_held _ _ _ _ _ Htx Hrow).
  - by rewrite with_yCells_insert_id.
Qed.


Lemma convertCellsByColumn_row_wise columnId newType p :
  acts_row_wise (λ row, mret (convert_row columnId newType row)) p
    (convertCellsByColumn columnId newType p).
Proof.
  apply bulk_spec. intros yRow q row Htx Hrow. simpl.
  rewrite (yRow_get_lookup _ _ _ _ Hrow). unfold convert_row.
  destruct (row !! columnId) as [yCell|]; simpl.
  2:{ by rewrite with_yCells_insert_id. }
  destruct newType; simpl;
    (destruct (js_falsy (ymap_get yCell "value")); simpl;
     [ by rewrite with_yCells_insert_id
     | by rewrite (yRow_set_held _ _ _ _ _ Htx Hrow) ]).
Qed.

Lemma renameSelectedCellTag_row_wise columnId oldValue newValue p :
  acts_row_wise (rename_row columnId oldValue newValue) p
    (renameSelectedCellTag columnId oldValue newValue p).
Proof.
  apply bulk_spec. intros yRow q row Htx Hrow. simpl.
  rewrite (yRow_get_lookup _ _ _ _ Hrow). unfold rename_row.
  destruct (row !! columnId) as [yCell|]; simpl.
  2:{ by rewrite with_yCells_insert_id. }
  destruct (js_spread (ymap_get yCell "value")) as [newSelected|e]; simpl;
    [|done].
  by rewrite (yRow_set_held _ _ _ _ _ Htx Hrow).
Qed.

Lemma deleteSelectedCellTag_row_wise columnId target p :
  acts_row_wise (deleteTag_row columnId target) p
    (deleteSelectedCellTag columnId target p).
Proof.
  apply bulk_spec. intros yRow q row Htx Hrow. simpl.
  rewrite (yRow_get_lookup _ _ _ _ Hrow). unfold deleteTag_row.
  destruct (row !! columnId) as [yCell|]; simpl.
  2:{ by rewrite with_yCells_insert_id. }
  destruct (js_spread (ymap_get yCell "value")) as [spread|e]; simpl; [|done].
  destruct (filter_tag (ymap_get yCell "value") target) as [newSelected|e];
    simpl; [|done].
  by rewrite (yRow_set_held _ _ _ _ _ Htx Hrow).
Qed.

End StoreFacts.

(** ** The database block model *)

Module DatabaseModelFacts.
Import DatabaseModel StoreFacts.

Lemma updateCell_cells rowId cell p :
  ∃ q, updateCell rowId cell p = Returns q ∧
       yCells q =
         <[rowId := <[columnId cell := new_yCell (columnId cell) (value cell)]>
                      (default ∅ (yCells p !! rowId))]> (yCells p) ∧
       yColumns q = yColumns p ∧ inTransaction q = inTransaction p.
Proof.
  unfold updateCell, transact, yCells_set, yRow_set, after_write.
  destruct p as [cells cols tx ns]. simpl.
  destruct tx; simpl; case_bool_decide as Hrow; simpl;
    eexists; (split; [reflexivity|]); simpl; (split; [|done]).
  all: try (destruct Hrow as [row Hrow]; rewrite Hrow; simpl;
            by apply alter_as_insert).
  all: assert (cells !! rowId = None) as ->
         by (destruct (cells !! rowId) eqn:E; [exfalso; eauto | done]);
       simpl; by rewrite alter_insert_eq.
Qed.

Lemma getCell_new_yCell rowId columnId value (row : YRow) (cells : YCells) p :
  yCells p = <[rowId := <[columnId := new_yCell columnId value]> row]> cells →
  getCell rowId columnId p =
    Some {| co_columnId := VStr columnId; co_value := value |}.
Proof.
  intros H. unfold getCell. rewrite H, lookup_insert_eq. simpl.
  by rewrite lookup_insert_eq, ymap_get_new_value, ymap_get_new_columnId.
Qed.

(** C2. For every row id, column id and value, [updateCell(rowId, {columnId,
    value})] returns, and [getCell(rowId, columnId)] on the store it leaves
    is exactly [{columnId, value}]: the row is created when it was missing and
    the cell stored under the column is the new two-entry map, whatever the
    old cell held. *)
Theorem updateCell_getCell rowId cell p :
  ∃ q, updateCell rowId cell p = Returns q ∧
       getCell rowId (columnId cell) q = Some (cell_object cell) ∧
       yRow_get rowId (columnId cell) q =
         Some (new_yCell (columnId cell) (value cell)).
Proof.
  destruct (updateCell_cells rowId cell p) as (q & Hq & Hcells & _).
  exists q. split; [done|]. split.
  - by apply (getCell_new_yCell _ _ _ _ _ _ Hcells).
  - unfold yRow_get. rewrite Hcells, lookup_insert_eq. simpl.
    by rewrite lookup_insert_eq.
Qed.





Lemma convert_row_select_twice columnId row :
  convert_row columnId Select (convert_row columnId Select row) =
  convert_row columnId Select row.
Proof.
  unfold convert_row at 2.
  destruct (row !! columnId) as [yCell|] eqn:Hcell; simpl.
  2:{ unfold convert_row. by rewrite Hcell. }
  destruct (js_falsy (ymap_get yCell "value")) eqn:Hfalsy.
  { unfold convert_row. rewrite Hcell. simpl. by rewrite Hfalsy. }
  unfold convert_row. rewrite lookup_insert_eq, Hcell. simpl.
  rewrite ymap_get_new_value, Hfalsy. simpl. by rewrite insert_insert_eq.
Qed.

(** C4. [convertCellsByColumn(col, 'select')] returns; a row whose cell at
    [col] holds a list [x, ...] then holds the one-element list [[x]] there
    (in general a truthy value [v] becomes [[v[0]]]); a row whose cell holds a
    falsy value, or that has no cell at [col], is left as it was; and running
    the conversion again changes no cell. *)
Theorem convert_select_first_wins columnId p :
  ∃ q, convertCellsByColumn columnId Select p = Returns q ∧
       (∀ rowId yCell x rest,
          yRow_get rowId columnId p = Some yCell →
          ymap_get yCell "value" = VArr (x :: rest) →
          getCell rowId columnId q =
            Some {| co_columnId := VStr columnId; co_value := VArr [x] |}) ∧
       (∀ rowId yCell,
          yRow_get rowId columnId p = Some yCell →
          js_falsy (ymap_get yCell "value") = false →
          getCell rowId columnId q =
            Some {| co_columnId := VStr columnId;
                    co_value := VArr [js_index0 (ymap_get yCell "value")] |}) ∧
       (∀ rowId yCell,
          yRow_get rowId columnId p = Some yCell →
          js_falsy (ymap_get yCell "value") = true →
          yCells q !! rowId = yCells p !! rowId) ∧
       (∀ rowId,
          yRow_get rowId columnId p = None →
          yCells q !! rowId = yCells p !! rowId) ∧
       ∃ q', convertCellsByColumn columnId Select q = Returns q' ∧
             yCells q' = yCells q.
Proof.
  destruct (acts_row_wise_total _ (convert_row columnId Select) _ _
              (convertCellsByColumn_row_wise columnId Select p))
    as (q & Hq & Hc & _); [done|].
  destruct (acts_row_wise_total _ (convert_row columnId Select) _ _
              (convertCellsByColumn_row_wise columnId Select q))
    as (q' & Hq' & Hc' & _); [done|].
  exists q. split; [done|].
  assert (Htruthy : ∀ rowId yCell,
            yRow_get rowId columnId p = Some yCell →
            js_falsy (ymap_get yCell "value") = false →
            getCell rowId columnId q =
              Some {| co_columnId := VStr columnId;
                      co_value := VArr [js_index0 (ymap_get yCell "value")] |}).
  { intros rowId yCell Hcell Hfalsy. unfold yRow_get in Hcell.
    destruct (yCells p !! rowId) as [row|] eqn:Hrow; simpl in Hcell; [|done].
    apply (getCell_new_yCell _ _ _ row (yCells q)).
    rewrite <- (insert_id (yCells q) rowId (convert_row columnId Select row))
      at 1.
    - unfold convert_row. rewrite Hcell. simpl. by rewrite Hfalsy.
    - by rewrite Hc, lookup_fmap, Hrow. }
  split; [|split; [done|]]; [|split; [|split]].
  - intros rowId yCell x rest Hcell Hvalue.
    rewrite (Htruthy rowId yCell Hcell); by rewrite Hvalue.
  - intros rowId yCell Hcell Hfalsy. unfold yRow_get in Hcell.
    rewrite Hc, lookup_fmap.
    destruct (yCells p !! rowId) as [row|]; simpl in *; [|done].
    unfold convert_row. rewrite Hcell. simpl. by rewrite Hfalsy.
  - intros rowId Hcell. unfold yRow_get in Hcell. rewrite Hc, lookup_fmap.
    destruct (yCells p !! rowId) as [row|]; simpl in *; [|done].
    unfold convert_row. by rewrite Hcell.
  - exists q'. split; [done|]. rewrite Hc', Hc. apply map_eq. intros k.
    rewrite !lookup_fmap. destruct (yCells p !! k) as [row|]; simpl; [|done].
    by rewrite convert_row_select_twice.
Qed.

Lemma convert_select_first_wins_witness :
  ∃ q, convertCellsByColumn "list" Select example_page = Returns q ∧
       getCell "r1" "list" q =
         Some {| co_columnId := VStr "list"; co_value := VArr [VStr "x"] |} ∧
       yCells q !! "r2" = yCells example_page !! "r2" ∧
       ∃ q', convertCellsByColumn "list" Select q = Returns q' ∧
             yCells q' = yCells q.
Proof.
  destruct (convert_select_first_wins "list" example_page)
    as (q & Hq & Hlist & _ & _ & Habsent & Hagain).
  exists q. split; [done|]. split; [|split; [|done]].
  - apply (Hlist "r1" (new_yCell "list" (VArr [VStr "x"; VStr "y"; VStr "z"]))
             (VStr "x") [VStr "y"; VStr "z"]); vm_compute; reflexivity.
  - apply (Habsent "r2"). vm_compute. reflexivity.
Defined.

Lemma keyed_new_yCell columnId value :
  keyed columnId (new_yCell columnId value) = true.
Proof.
  unfold keyed, new_yCell. simplify_map_eq. by apply bool_decide_eq_true.
Qed.

Lemma row_keyed_insert_new columnId value row :
  row_keyed row → row_keyed (<[columnId := new_yCell columnId value]> row).
Proof.
  intros H. apply map_Forall_insert_2; [apply keyed_new_yCell | done].
Qed.

Lemma cells_keyed_row_wise step p q :
  acts_row_wise step p (Returns q) →
  (∀ row row', row_keyed row → step row = Returns row' → row_keyed row') →
  cells_keyed p → cells_keyed q.
Proof.
  intros (Hrows & _) Hstep Hp k row' Hk. specialize (Hrows k).
  destruct (yCells p !! k) as [row|] eqn:Hrow; [|congruence].
  destruct Hrows as (row'' & Hs & Hq). rewrite Hq in Hk. injection Hk as ->.
  apply (Hstep row); [|done]. by apply (Hp k).
Qed.

Lemma copy_row_keyed fromId toId row :
  row_keyed row → row_keyed (copy_row fromId toId row).
Proof.
  intros H. unfold copy_row. destruct (row !! fromId); [|done].
  by apply row_keyed_insert_new.
Qed.

Lemma convert_row_keyed columnId newType row :
  row_keyed row → row_keyed (convert_row columnId newType row).
Proof.
  intros H. unfold convert_row. destruct (row !! columnId); [|done]. simpl.
  destruct (js_falsy _); [done|]. by apply row_keyed_insert_new.
Qed.

Lemma rename_row_keyed columnId oldValue newValue row row' :
  row_keyed row → rename_row columnId oldValue newValue row = Returns row' →
  row_keyed row'.
Proof.
  intros H. unfold rename_row. destruct (row !! columnId).
  2:{ by intros [= <-]. }
  destruct (js_spread _); simpl; [|done]. intros [= <-].
  by apply row_keyed_insert_new.
Qed.

Lemma deleteTag_row_keyed columnId target row row' :
  row_keyed row → deleteTag_row columnId target row = Returns row' →
  row_keyed row'.
Proof.
  intros H. unfold deleteTag_row. destruct (row !! columnId).
  2:{ by intros [= <-]. }
  simpl. destruct (js_spread _); simpl; [|done].
  destruct (filter_tag _ _); simpl; [|done]. intros [= <-].
  by apply row_keyed_insert_new.
Qed.

(** C5. On a cell table in which every stored cell carries, as its
    ['columnId'] entry, the column key it is stored under, each of the five
    operations that write cells leaves such a table: [updateCell],
    [copyCellsByColumn] and [convertCellsByColumn] always return and do;
    [renameSelectedCellTag] and [deleteSelectedCellTag] do whenever they
    return. *)
Theorem writes_keep_cells_keyed p :
  cells_keyed p →
  (∀ rowId cell, ∃ q, updateCell rowId cell p = Returns q ∧ cells_keyed q) ∧
  (∀ fromId toId,
     ∃ q, copyCellsByColumn fromId toId p = Returns q ∧ cells_keyed q) ∧
  (∀ columnId newType,
     ∃ q, convertCellsByColumn columnId newType p = Returns q ∧ cells_keyed q) ∧
  (∀ columnId oldValue newValue q,
     renameSelectedCellTag columnId oldValue newValue p = Returns q →
     cells_keyed q) ∧
  (∀ columnId target q,
     deleteSelectedCellTag columnId target p = Returns q → cells_keyed q).
Proof.
  intros Hp. split; [|split; [|split; [|split]]].
  - intros rowId cell.
    destruct (updateCell_cells rowId cell p) as (q & Hq & Hcells & _).
    exists q. split; [done|]. unfold cells_keyed. rewrite Hcells.
    apply map_Forall_insert_2; [|done]. apply row_keyed_insert_new.
    destruct (yCells p !! rowId) as [row|] eqn:Hrow; simpl.
    + by apply (Hp rowId).
    + apply map_Forall_empty.
  - intros fromId toId.
    pose proof (copyCellsByColumn_row_wise fromId toId p) as H.
    destruct (acts_row_wise_total _ (copy_row fromId toId) _ _ H)
      as (q & Hq & _); [done|].
    exists q. split; [done|]. rewrite Hq in H.
    apply (cells_keyed_row_wise _ _ _ H); [|done].
    intros row row' Hrow [= <-]. by apply copy_row_keyed.
  - intros columnId newType.
    pose proof (convertCellsByColumn_row_wise columnId newType p) as H.
    destruct (acts_row_wise_total _ (convert_row columnId newType) _ _ H)
      as (q & Hq & _); [done|].
    exists q. split; [done|]. rewrite Hq in H.
    apply (cells_keyed_row_wise _ _ _ H); [|done].
    intros row row' Hrow [= <-]. by apply convert_row_keyed.
  - intros columnId oldValue newValue q Hq.
    pose proof (renameSelectedCellTag_row_wise columnId oldValue newValue p)
      as H.
    rewrite Hq in H. apply (cells_keyed_row_wise _ _ _ H); [|done].
    intros row row'. apply rename_row_keyed.
  - intros columnId target q Hq.
    pose proof (deleteSelectedCellTag_row_wise columnId target p) as H.
    rewrite Hq in H. apply (cells_keyed_row_wise _ _ _ H); [|done].
    intros row row'. apply deleteTag_row_keyed.
Qed.

Lemma writes_keep_cells_keyed_witness :
  cells_keyed example_page ∧
  (∃ q, updateCell "r2" {| columnId := "a"; value := VNum 1 |} example_page
          = Returns q ∧ cells_keyed q) ∧
  (∃ q, renameSelectedCellTag "col" tag_A tag_B example_page = Returns q ∧
        cells_keyed q) ∧
  (∃ q, deleteSelectedCellTag "col" tag_C example_page = Returns q ∧
        cells_keyed q).
Proof.
  assert (Hkeyed : cells_keyed example_page).
  { apply (bool_decide_unpack _). vm_compute. exact I. }
  destruct (writes_keep_cells_keyed example_page Hkeyed)
    as (Hupdate & _ & _ & Hrename & Hdelete).
  split; [exact Hkeyed|]. split; [apply Hupdate|]. split.
  - eexists. split; [vm_compute; reflexivity|].
    apply (Hrename "col" tag_A tag_B). vm_compute. reflexivity.
  - eexists. split; [vm_compute; reflexivity|].
    apply (Hdelete "col" tag_C). vm_compute. reflexivity.
Defined.

(** In the store as modelled a write outside of a transaction is notified on
    its own: a loop of such writes over N rows would notify N times. *)
Lemma yRow_set_outside_notifies yRow key yCell p :
  inTransaction p = false →
  notifications (yRow_set yRow key yCell p) =
    (yCells (yRow_set yRow key yCell p), yColumns p) :: notifications p.
Proof. intros H. unfold yRow_set, after_write. simpl. by rewrite H. Qed.




Lemma js_indexOf_absent items tag :
  Forall (λ item, js_strict_eq_tag item tag = false) items →
  js_indexOf items tag = (-1)%Z.
Proof.
  induction 1 as [|item rest Hitem _ IH]; simpl; [done|].
  rewrite Hitem, IH. by rewrite bool_decide_eq_true_2.
Qed.

(** The lookup of [renameSelectedCellTag] goes by reference: when the object
    [oldValue] itself is not in the list, the row ends up with the same tags,
    whether or not one of them has the value of [oldValue]. *)
Lemma rename_row_other_object columnId oldValue newValue row yCell items :
  row !! columnId = Some yCell → ymap_get yCell "value" = VArr items →
  Forall (λ item, js_strict_eq_tag item oldValue = false) items →
  rename_row columnId oldValue newValue row =
    Returns (<[columnId := new_yCell columnId (VArr items)]> row).
Proof.
  intros Hcell Hvalue Hitems. unfold rename_row. rewrite Hcell, Hvalue. simpl.
  by rewrite (js_indexOf_absent _ _ Hitems).
Qed.

(** C1, on the code. The cell [col] of row [r1] holds [[{value:'A'},
    {value:'C'}]]; [renameSelectedCellTag(col, {value:'A'}, {value:'B'})],
    called with an object of its own for the old tag, returns and leaves the
    cell value [[{value:'A'}, {value:'C'}]]: [indexOf] compares the tags by
    reference, finds none and answers [-1], and the assignment at [-1] changes
    no element. *)
Theorem rename_by_equal_tag_keeps_tags :
  tag_value fresh_A = tag_value tag_A ∧
  getCell "r1" "col" example_page =
    Some {| co_columnId := VStr "col";
            co_value := VArr [VTag tag_A; VTag tag_C] |} ∧
  ∃ q, renameSelectedCellTag "col" fresh_A tag_B example_page = Returns q ∧
       getCell "r1" "col" q =
         Some {| co_columnId := VStr "col";
                 co_value := VArr [VTag tag_A; VTag tag_C] |}.
Proof.
  split; [reflexivity|]. split; [vm_compute; reflexivity|].
  eexists. split; vm_compute; reflexivity.
Qed.



(** ** More on the database block model *)

Lemma row_wise_row step p q rowId row :
  acts_row_wise step p (Returns q) → yCells p !! rowId = Some row →
  ∃ row', step row = Returns row' ∧ yCells q !! rowId = Some row'.
Proof. intros (Hrows & _) Hrow. specialize (Hrows rowId). by rewrite Hrow in Hrows. Qed.

Lemma only_column_row_wise step columnId p q :
  acts_row_wise step p (Returns q) →
  (∀ row row' other, step row = Returns row' → other ≠ columnId →
     row' !! other = row !! other) →
  only_column columnId p q.
Proof.
  intros H Hstep. pose proof H as (Hrows & Hcols & _).
  split; [done|]. split.
  - intros rowId. specialize (Hrows rowId).
    destruct (yCells p !! rowId) as [row|].
    + destruct Hrows as (row' & _ & ->). split; eauto.
    + rewrite Hrows. done.
  - intros rowId other Hother. unfold yRow_get. specialize (Hrows rowId).
    destruct (yCells p !! rowId) as [row|].
    + destruct Hrows as (row' & Hrow' & ->). simpl. by apply (Hstep row).
    + by rewrite Hrows.
Qed.

(** X1. [updateCell] changes the one cell it is given: every other cell, in
    this row and in the others, is as before, no row goes away, and the
    column definitions are untouched. *)
Theorem updateCell_touches_one_cell rowId cell p :
  ∃ q, updateCell rowId cell p = Returns q ∧
       yColumns q = yColumns p ∧
       (∀ row, is_Some (yCells p !! row) → is_Some (yCells q !! row)) ∧
       ∀ row other,
         (row, other) ≠ (rowId, columnId cell) →
         yRow_get row other q = yRow_get row other p.
Proof.
  destruct (updateCell_cells rowId cell p) as (q & Hq & Hcells & Hcols & _).
  exists q. split; [done|]. split; [done|]. split.
  - intros row Hrow. rewrite Hcells, lookup_insert_is_Some.
    destruct (decide (rowId = row)); [by left | by right].
  - intros row other Hne. unfold yRow_get. rewrite Hcells.
    destruct (decide (rowId = row)) as [->|Hrow].
    + rewrite lookup_insert_eq. simpl.
      rewrite lookup_insert_ne by congruence.
      by destruct (yCells p !! row).
    + by rewrite lookup_insert_ne.
Qed.

Lemma updateCell_touches_one_cell_witness :
  ∃ q, updateCell "r1" {| columnId := "a"; value := VNum 7 |} example_page
         = Returns q ∧
       yRow_get "r1" "col" q = yRow_get "r1" "col" example_page ∧
       is_Some (yCells q !! "r2").
Proof.
  destruct (updateCell_touches_one_cell "r1"
              {| columnId := "a"; value := VNum 7 |} example_page)
    as (q & Hq & _ & Hrows & Hother).
  exists q. split; [done|]. split.
  - apply Hother. intros H. discriminate H.
  - apply Hrows. vm_compute. eauto.
Defined.

Lemma rename_row_other columnId oldValue newValue row row' other :
  rename_row columnId oldValue newValue row = Returns row' →
  other ≠ columnId → row' !! other = row !! other.
Proof.
  unfold rename_row. destruct (row !! columnId); [|by intros [= <-]].
  destruct (js_spread _); simpl; [|done]. intros [= <-] Hother.
  by rewrite lookup_insert_ne.
Qed.

Lemma deleteTag_row_other columnId target row row' other :
  deleteTag_row columnId target row = Returns row' →
  other ≠ columnId → row' !! other = row !! other.
Proof.
  unfold deleteTag_row. destruct (row !! columnId); [|by intros [= <-]].
  simpl. destruct (js_spread _); simpl; [|done].
  destruct (filter_tag _ _); simpl; [|done]. intros [= <-] Hother.
  by rewrite lookup_insert_ne.
Qed.

(** X2. The bulk operations that write cells stay inside their column:
    [copyCellsByColumn] changes cells of the target column only,
    [convertCellsByColumn], [renameSelectedCellTag] and
    [deleteSelectedCellTag] cells of the column they are given only; none of
    them adds or removes a row or touches the column definitions. *)
Theorem bulk_writes_stay_in_column p q :
  (∀ fromId toId,
     copyCellsByColumn fromId toId p = Returns q → only_column toId p q) ∧
  (∀ columnId newType,
     convertCellsByColumn columnId newType p = Returns q →
     only_column columnId p q) ∧
  (∀ columnId oldValue newValue,
     renameSelectedCellTag columnId oldValue newValue p = Returns q →
     only_column columnId p q) ∧
  (∀ columnId target,
     deleteSelectedCellTag columnId target p = Returns q →
     only_column columnId p q).
Proof.
  split; [|split; [|split]].
  - intros fromId toId Hq.
    pose proof (copyCellsByColumn_row_wise fromId toId p) as H.
    rewrite Hq in H. apply (only_column_row_wise _ _ _ _ H).
    intros row row' other [= <-] Hother. unfold copy_row.
    destruct (row !! fromId); [|done]. by rewrite lookup_insert_ne.
  - intros columnId newType Hq.
    pose proof (convertCellsByColumn_row_wise columnId newType p) as H.
    rewrite Hq in H. apply (only_column_row_wise _ _ _ _ H).
    intros row row' other [= <-] Hother. unfold convert_row.
    destruct (row !! columnId); [|done]. simpl.
    destruct (js_falsy _); [done|]. by rewrite lookup_insert_ne.
  - intros columnId oldValue newValue Hq.
    pose proof (renameSelectedCellTag_row_wise columnId oldValue newValue p)
      as H.
    rewrite Hq in H. apply (only_column_row_wise _ _ _ _ H).
    intros row row' other. apply rename_row_other.
  - intros columnId target Hq.
    pose proof (deleteSelectedCellTag_row_wise columnId target p) as H.
    rewrite Hq in H. apply (only_column_row_wise _ _ _ _ H).
    intros row row' other. apply deleteTag_row_other.
Qed.

Lemma bulk_writes_stay_in_column_witness :
  ∃ q, renameSelectedCellTag "col" tag_A tag_B example_page = Returns q ∧
       only_column "col" example_page q.
Proof.
  destruct (renameSelectedCellTag "col" tag_A tag_B example_page) as [q|e]
    eqn:Hq; [|vm_compute in Hq; discriminate Hq].
  exists q. split; [done|].
  destruct (bulk_writes_stay_in_column example_page q) as (_ & _ & Hrename & _).
  by apply (Hrename "col" tag_A tag_B).
Defined.

(** *** The tag operations *)

Lemma filter_tag_tags tags target :
  filter_tag (VArr (VTag <$> tags)) target =
    Returns (VTag <$> filter (λ t, tag_value t ≠ tag_value target) tags).
Proof.
  unfold filter_tag. induction tags as [|t tags IH]; [done|].
  rewrite fmap_cons. cbn [filterM]. rewrite IH.
  cbn [js_get_value mbind outcome_bind mret outcome_ret js_strict_eq_str].
  destruct (decide (tag_value t = tag_value target)) as [Heq|Hne].
  - rewrite bool_decide_eq_true_2 by done. simpl.
    by rewrite filter_cons_False by (by intros ?).
  - rewrite bool_decide_eq_false_2 by done. simpl.
    by rewrite filter_cons_True by done.
Qed.

(** X3. When [deleteSelectedCellTag(columnId, target)] returns, a cell of the
    column that held a list of tags holds the tags whose [value] differs from
    the one of [target], in their order: the tags go by value, whichever
    object [target] is. *)
Theorem deleteSelectedCellTag_removes_by_value columnId target p q :
  deleteSelectedCellTag columnId target p = Returns q →
  ∀ rowId yCell tags,
    yRow_get rowId columnId p = Some yCell →
    ymap_get yCell "value" = VArr (VTag <$> tags) →
    getCell rowId columnId q =
      Some {| co_columnId := VStr columnId;
              co_value :=
                VArr (VTag <$> filter (λ t, tag_value t ≠ tag_value target)
                                 tags) |}.
Proof.
  intros Hq rowId yCell tags Hcell Hvalue.
  pose proof (deleteSelectedCellTag_row_wise columnId target p) as H.
  rewrite Hq in H. unfold yRow_get in Hcell.
  destruct (yCells p !! rowId) as [row|] eqn:Hrow; simpl in Hcell; [|done].
  destruct (row_wise_row _ _ _ _ _ H Hrow) as (row' & Hstep & Hrow').
  unfold deleteTag_row in Hstep. rewrite Hcell in Hstep. simpl in Hstep.
  rewrite Hvalue in Hstep. cbn [js_spread mbind outcome_bind] in Hstep.
  rewrite filter_tag_tags in Hstep. injection Hstep as <-.
  apply (getCell_new_yCell _ _ _ row (yCells q)).
  symmetry. by apply insert_id.
Qed.

Lemma deleteSelectedCellTag_removes_by_value_witness :
  ∃ q, deleteSelectedCellTag "col" fresh_A example_page = Returns q ∧
       getCell "r1" "col" q =
         Some {| co_columnId := VStr "col"; co_value := VArr [VTag tag_C] |}.
Proof.
  destruct (deleteSelectedCellTag "col" fresh_A example_page) as [q|e]
    eqn:Hq; [|vm_compute in Hq; discriminate Hq].
  exists q. split; [done|].
  apply (deleteSelectedCellTag_removes_by_value "col" fresh_A example_page q Hq
           "r1" (new_yCell "col" (VArr [VTag tag_A; VTag tag_C]))
           [tag_A; tag_C]);
    vm_compute; reflexivity.
Defined.

Lemma row_wise_returns_iff step ok columnId p result :
  acts_row_wise step p result →
  (∀ row, row !! columnId = None → ∃ row', step row = Returns row') →
  (∀ row yCell, row !! columnId = Some yCell →
     if ok (ymap_get yCell "value") : bool
     then ∃ row', step row = Returns row'
     else step row = Throws TypeError) →
  (column_holds ok columnId p → ∃ q, result = Returns q) ∧
  (¬ column_holds ok columnId p → result = Throws TypeError).
Proof.
  intros H Habsent Hcell. destruct result as [q|e]; simpl in H.
  - split; [by exists q|]. intros Hnot. exfalso. apply Hnot.
    intros rowId yCell Hget. unfold yRow_get in Hget.
    destruct (yCells p !! rowId) as [row|] eqn:Hrow; simpl in Hget; [|done].
    destruct (row_wise_row _ _ _ _ _ H Hrow) as (row' & Hstep & _).
    specialize (Hcell row yCell Hget).
    destruct (ok (ymap_get yCell "value")); [done|]. congruence.
  - destruct H as (k & row & Hrow & Hthrow).
    destruct (row !! columnId) as [yCell|] eqn:Hget.
    2:{ destruct (Habsent row Hget) as (row' & Hret). congruence. }
    specialize (Hcell row yCell Hget).
    destruct (ok (ymap_get yCell "value")) eqn:Hok.
    { destruct Hcell as (row' & Hret). congruence. }
    split.
    + intros Hholds. specialize (Hholds k yCell). unfold yRow_get in Hholds.
      rewrite Hrow in Hholds. simpl in Hholds. specialize (Hholds Hget).
      congruence.
    + intros _. congruence.
Qed.

Lemma column_holds_rows ok columnId p :
  map_Forall (λ _ (row : YRow),
                from_option (λ yCell, ok (ymap_get yCell "value")) true
                  (row !! columnId) = true) (yCells p) →
  column_holds ok columnId p.
Proof.
  intros H rowId yCell Hget. unfold yRow_get in Hget.
  destruct (yCells p !! rowId) as [row|] eqn:Hrow; simpl in Hget; [|done].
  specialize (H rowId row Hrow). simpl in H. by rewrite Hget in H.
Qed.

(** X4. [renameSelectedCellTag] returns when every cell of the column holds
    an array or a string, and throws a [TypeError] when some cell of the
    column holds anything else (a number, a [Y.Text], no value at all): the
    spread [[...selected]] needs an iterable. *)
Theorem renameSelectedCellTag_returns_iff columnId oldValue newValue p :
  (column_holds js_spreadable columnId p →
   ∃ q, renameSelectedCellTag columnId oldValue newValue p = Returns q) ∧
  (¬ column_holds js_spreadable columnId p →
   renameSelectedCellTag columnId oldValue newValue p = Throws TypeError).
Proof.
  apply (row_wise_returns_iff (rename_row columnId oldValue newValue)).
  - apply renameSelectedCellTag_row_wise.
  - intros row Hnone. unfold rename_row. rewrite Hnone. by eexists.
  - intros row yCell Hcell. unfold rename_row. rewrite Hcell.
    destruct (ymap_get yCell "value"); simpl; by eauto.
Qed.

Lemma renameSelectedCellTag_returns_iff_witness :
  column_holds js_spreadable "col" example_page ∧
  (∃ q, renameSelectedCellTag "col" tag_A tag_B example_page = Returns q) ∧
  ¬ column_holds js_spreadable "a" example_page ∧
  renameSelectedCellTag "a" tag_A tag_B example_page = Throws TypeError.
Proof.
  assert (Hcol : column_holds js_spreadable "col" example_page).
  { apply column_holds_rows, (bool_decide_unpack _). vm_compute. exact I. }
  assert (Ha : ¬ column_holds js_spreadable "a" example_page).
  { intros H. specialize (H "r1" (new_yCell "a" (VNum 12)) eq_refl).
    vm_compute in H. discriminate H. }
  split; [done|]. split; [|split; [done|]].
  - by apply (renameSelectedCellTag_returns_iff "col" tag_A tag_B example_page).
  - by apply (renameSelectedCellTag_returns_iff "a" tag_A tag_B example_page).
Defined.

End DatabaseModelFacts.

(** ** The toolbar search *)

Module ToolbarFacts.
Import DatabaseModel Toolbar.

Lemma includes_empty s : includes s "" = true.
Proof. by destruct s. Qed.

Lemma filterM_all {A} (pred : A → Outcome bool) l :
  Forall (λ x, pred x = Returns true) l → filterM pred l = Returns l.
Proof.
  induction 1 as [|x rest Hx _ IH]; simpl; [done|]. by rewrite Hx, IH.
Qed.

Lemma first_loop_spec l (acc : gmap string (list JsValue)) :
  titled acc →
  titled (foldl (λ dm child, <[id child := [VStr (default "" (text child))]]> dm)
            acc l) ∧
  ∀ k, (is_Some (acc !! k) ∨ k ∈ id <$> l) →
       is_Some (foldl (λ dm child,
                         <[id child := [VStr (default "" (text child))]]> dm)
                  acc l !! k).
Proof.
  revert acc. induction l as [|child rest IH]; intros acc Hacc; simpl.
  - split; [done|]. intros k [H|H]; [done|]. by apply elem_of_nil in H.
  - destruct (IH (<[id child := [VStr (default "" (text child))]]> acc))
      as [Ht Hk].
    { apply map_Forall_insert_2; [by eexists _, _ | done]. }
    split; [done|]. intros k Hkin. apply Hk.
    rewrite lookup_insert_is_Some.
    destruct (decide (id child = k)) as [->|Hne]; [by left; left|].
    destruct Hkin as [H|H]; [by left; right|].
    apply elem_of_cons in H as [->|H]; [done | by right].
Qed.

Lemma push_column_values_spec cells rowIds acc dm :
  push_column_values cells rowIds acc = Returns dm →
  titled acc → titled dm ∧ ∀ k, is_Some (acc !! k) → is_Some (dm !! k).
Proof.
  revert acc. induction rowIds as [|rowId rest IH]; intros acc; simpl.
  - by intros [= <-].
  - destruct (cells !! rowId) as [columnMap|]; [|by apply IH].
    destruct (mapM column_values (map_to_list columnMap).*2) as [vals|e];
      simpl; [|done].
    intros Hdm Hacc. apply IH in Hdm as [Ht Hk].
    + split; [done|]. intros k Hkin. apply Hk.
      by rewrite lookup_alter_is_Some.
    + intros k items. rewrite lookup_alter. case_decide as Hk; [|by apply Hacc].
      subst k. destruct (acc !! rowId) as [old|] eqn:Hold; [|done].
      intros [= <-]. destruct (Hacc rowId old Hold) as (s & r & ->).
      by eexists _, _.
Qed.

Lemma _databaseMap_spec tb dm :
  _databaseMap tb = Returns dm →
  titled dm ∧ ∀ child, child ∈ children tb → is_Some (dm !! id child).
Proof.
  unfold _databaseMap. intros Hdm.
  destruct (first_loop_spec (children tb) ∅) as [Ht Hk];
    [apply map_Forall_empty|].
  apply push_column_values_spec in Hdm as [Ht' Hk']; [|done].
  split; [done|]. intros child Hchild. apply Hk', Hk. right.
  by apply list_elem_of_fmap_2.
Qed.

Lemma filter_keeps_all {A} (P : A → Prop) `{∀ x, Decision (P x)} (l : list A) :
  Forall P l → filter P l = l.
Proof.
  induction 1 as [|x rest Hx _ IH]; [done|].
  rewrite filter_cons_True by done. by rewrite IH.
Qed.

(** C7, as amended. When the input event fires with a value that trims to
    the empty string, and the flattening of the rows ([_databaseMap]) goes
    through, [_onSearch] returns with the search state [SearchInput] and with
    the filtered row ids set to the ids of all the rows, in their order: every
    row matches the empty query.  The result does not depend on the search
    state or on the filtered row ids from before. *)
Theorem empty_query_keeps_every_row toLocaleLowerCase value tb dm :
  toLocaleLowerCase "" = "" → trim value = "" →
  _databaseMap tb = Returns dm →
  _onSearch toLocaleLowerCase value tb =
    Returns {| children := children tb; page := page tb;
               searchState := SearchInput;
               filteredRowIds := id <$> children tb;
               searchInputValue := searchInputValue tb |}.
Proof.
  intros Hlower Htrim Hdm. unfold _onSearch. rewrite Htrim.
  rewrite bool_decide_eq_true_2 by done.
  change (_databaseMap (setSearchState SearchInput
                          (setSearchState Searching tb)))
    with (_databaseMap tb).
  rewrite Hdm. simpl.
  destruct (_databaseMap_spec tb dm Hdm) as [Ht Hk].
  rewrite filterM_all.
  2:{ apply Forall_forall. intros [k items] Hin.
      apply elem_of_map_to_list in Hin.
      destruct (Ht k items Hin) as (s & r & ->). simpl.
      by rewrite Hlower, includes_empty. }
  simpl. unfold setFilteredRowIds. simpl. do 3 f_equal.
  apply filter_keeps_all, Forall_forall. intros child Hchild.
  destruct (Hk child Hchild) as [items Hitems].
  apply list_elem_of_fmap. exists (id child, items). split; [done|].
  by apply elem_of_map_to_list.
Qed.

Lemma empty_query_keeps_every_row_witness :
  ascii_lower_case "" = "" ∧ trim "  " = "" ∧
  _onSearch ascii_lower_case "  " example_toolbar =
    Returns {| children := children example_toolbar;
               page := page example_toolbar;
               searchState := SearchInput;
               filteredRowIds := ["r1"; "r2"];
               searchInputValue := searchInputValue example_toolbar |}.
Proof.
  split; [reflexivity|]. split; [reflexivity|].
  eapply (empty_query_keeps_every_row ascii_lower_case "  " example_toolbar);
    [reflexivity | reflexivity | vm_compute; reflexivity].
Defined.

(** C7, as stated, fails: on [example_toolbar], whose table has the rows [r1]
    and [r2], the input event with the empty string leaves the filtered row
    ids [r1, r2]; the set is not emptied (only [_resetSearchStatus] sets it
    to the empty list). *)
Lemma empty_query_does_not_clear_filtered_rows :
  trim "" = "" ∧
  ∃ tb, _onSearch ascii_lower_case "" example_toolbar = Returns tb ∧
        filteredRowIds tb = ["r1"; "r2"] ∧ filteredRowIds tb ≠ [] ∧
        filteredRowIds (_resetSearchStatus example_toolbar) = [].
Proof.
  split; [reflexivity|]. eexists. split; [vm_compute; reflexivity|].
  split; [reflexivity|]. split; [discriminate | reflexivity].
Qed.

(** ** More on the toolbar search *)

Lemma filterM_elem {A} (pred : A → Outcome bool) l kept x :
  filterM pred l = Returns kept →
  x ∈ kept ↔ x ∈ l ∧ pred x = Returns true.
Proof.
  revert kept. induction l as [|y l IH]; intros kept; simpl.
  - intros [= <-]. split; [by intros ?%elem_of_nil | by intros [?%elem_of_nil _]].
  - destruct (pred y) as [b|e] eqn:Hy; simpl; [|done].
    destruct (filterM pred l) as [ys|e]; simpl; [|done].
    intros [= <-]. specialize (IH ys eq_refl).
    destruct b.
    + rewrite !elem_of_cons, IH. split.
      * intros [->|[? ?]]; [by split; [left|] | by split; [right|]].
      * intros [[->|?] ?]; [by left | by right].
    + rewrite elem_of_cons, IH. split.
      * intros [? ?]. by split; [right|].
      * intros [[->|?] ?]; [congruence | done].
Qed.

Lemma databaseMap_ignores_search_state value tb :
  _databaseMap
    (if bool_decide (trim value = "")
     then setSearchState SearchInput (setSearchState Searching tb)
     else setSearchState Searching tb) = _databaseMap tb.
Proof. by case_bool_decide. Qed.

Lemma onSearch_throws_with_databaseMap toLocaleLowerCase value tb e :
  _databaseMap tb = Throws e →
  _onSearch toLocaleLowerCase value tb = Throws e.
Proof.
  intros Hthrow. unfold _onSearch.
  by rewrite databaseMap_ignores_search_state, Hthrow.
Qed.

Lemma onSearch_with_databaseMap toLocaleLowerCase value tb dm tb' :
  _databaseMap tb = Returns dm →
  _onSearch toLocaleLowerCase value tb = Returns tb' →
  ∃ existing,
    filterM (λ entry : string * list JsValue,
               has_match toLocaleLowerCase (trim value) entry.2)
            (map_to_list dm) = Returns existing ∧
    tb' = {| children := children tb; page := page tb;
             searchState := if bool_decide (trim value = "")
                            then SearchInput else Searching;
             filteredRowIds :=
               id <$> filter (λ child, id child ∈ existing.*1) (children tb);
             searchInputValue := searchInputValue tb |}.
Proof.
  intros Hdm. unfold _onSearch.
  rewrite databaseMap_ignores_search_state, Hdm. cbn [mbind outcome_bind].
  destruct (filterM _ (map_to_list dm)) as [existing|e];
    cbn [mbind outcome_bind mret outcome_ret]; [|done].
  intros [= <-]. exists existing. split; [done|]. by case_bool_decide.
Qed.

Lemma filtered_rows_match {A} (pred : string * A → Outcome bool)
  (dm : gmap string A) existing (rows : list BlockModel) rowId :
  filterM pred (map_to_list dm) = Returns existing →
  rowId ∈ id <$> filter (λ child, id child ∈ existing.*1) rows ↔
  rowId ∈ id <$> rows ∧
  ∃ items, dm !! rowId = Some items ∧ pred (rowId, items) = Returns true.
Proof.
  intros Hex. rewrite list_elem_of_fmap. split.
  - intros (child & -> & Hchild).
    apply list_elem_of_filter in Hchild as [Hin Hchild].
    split; [by apply list_elem_of_fmap_2|].
    apply list_elem_of_fmap in Hin as ([k items] & Hk & Hin).
    simpl in Hk. subst k.
    apply (filterM_elem _ _ _ _ Hex) in Hin as [Hin Hmatch].
    apply elem_of_map_to_list in Hin. by exists items.
  - intros (Hin & items & Hitems & Hmatch).
    apply list_elem_of_fmap in Hin as (child & -> & Hchild).
    exists child. split; [done|]. apply list_elem_of_filter. split; [|done].
    apply list_elem_of_fmap. exists (id child, items). split; [done|].
    apply (filterM_elem _ _ _ _ Hex). split; [|done].
    by apply elem_of_map_to_list.
Qed.

(** X5. When [_onSearch] returns, it has changed the search state and the
    filtered row ids only: the state is [SearchInput] for a value that trims
    to the empty string and [Searching] otherwise, and the filtered row ids
    are the ids of the rows, in row order, for which some flattened value of
    [_databaseMap] matches the trimmed query: the row text or a cell value,
    compared in lower case as a substring. *)
Theorem onSearch_filters_matching_rows toLocaleLowerCase value tb dm tb' :
  _databaseMap tb = Returns dm →
  _onSearch toLocaleLowerCase value tb = Returns tb' →
  children tb' = children tb ∧ page tb' = page tb ∧
  searchInputValue tb' = searchInputValue tb ∧
  searchState tb' =
    (if bool_decide (trim value = "") then SearchInput else Searching) ∧
  filteredRowIds tb' `sublist_of` (id <$> children tb) ∧
  ∀ rowId,
    rowId ∈ filteredRowIds tb' ↔
    rowId ∈ id <$> children tb ∧
    ∃ items, dm !! rowId = Some items ∧
             has_match toLocaleLowerCase (trim value) items = Returns true.
Proof.
  intros Hdm Hsearch.
  destruct (onSearch_with_databaseMap _ _ _ _ _ Hdm Hsearch)
    as (existing & Hex & ->).
  simpl. repeat (split; [done|]). split.
  - apply fmap_sublist, sublist_filter.
  - intros rowId. by rewrite (filtered_rows_match _ _ _ _ _ Hex).
Qed.

Lemma mapM_outcome_spec {A B} (f : A → Outcome B) (ok : A → bool) l :
  (∀ x, if ok x then ∃ y, f x = Returns y else f x = Throws TypeError) →
  match mapM f l with
  | Returns _ => Forall (λ x, ok x = true) l
  | Throws e => e = TypeError ∧ Exists (λ x, ok x = false) l
  end.
Proof.
  intros Hf. induction l as [|x l IH]; simpl; [done|].
  specialize (Hf x). destruct (ok x) eqn:Hx.
  - destruct Hf as (y & ->). simpl. destruct (mapM f l) as [ys|e]; simpl.
    + by constructor.
    + destruct IH as [-> IH]. split; [done|]. by right.
  - rewrite Hf. simpl. split; [done|]. by left.
Qed.

Lemma js_get_value_nullish item :
  if negb (js_nullish item) then ∃ v, js_get_value item = Returns v
  else js_get_value item = Throws TypeError.
Proof. destruct item; simpl; by eauto. Qed.

Lemma column_values_flattens cell :
  if flattens (ymap_get cell "value")
  then ∃ values, column_values cell = Returns values
  else column_values cell = Throws TypeError.
Proof.
  unfold column_values, flattens.
  destruct (ymap_get cell "value") as [| | | | |t|items|]; try by eexists.
  pose proof (mapM_outcome_spec js_get_value
                (λ item, negb (js_nullish item)) items js_get_value_nullish)
    as H.
  destruct (mapM js_get_value items) as [values|e].
  - rewrite (proj2 (forallb_forall _ _)); [by eexists|].
    intros x Hx. apply (proj1 (Forall_forall _ _) H).
    by apply list_elem_of_In.
  - destruct H as [-> Hex].
    destruct (forallb _ items) eqn:Hall; [|done].
    apply Exists_exists in Hex as (x & Hx & Hbad).
    rewrite forallb_forall in Hall. specialize (Hall x).
    rewrite Hall in Hbad; [done|]. by apply list_elem_of_In.
Qed.

Lemma ymap_get_toJSON (yCell : gmap string JsValue) key :
  ymap_get (toJSON <$> yCell) key = toJSON (ymap_get yCell key).
Proof. unfold ymap_get. rewrite lookup_fmap. by destruct (yCell !! key). Qed.

Lemma flattens_toJSON v : flattens (toJSON v) = flattens v.
Proof. by destruct v. Qed.

Lemma row_values_spec (row : gmap string (gmap string JsValue)) :
  match mapM column_values
          (map_to_list
             ((λ yCell : gmap string JsValue, toJSON <$> yCell) <$> row)).*2
  with
  | Returns _ =>
      ∀ columnId yCell, row !! columnId = Some yCell →
                        flattens (ymap_get yCell "value") = true
  | Throws e =>
      e = TypeError ∧
      ∃ columnId yCell, row !! columnId = Some yCell ∧
                        flattens (ymap_get yCell "value") = false
  end.
Proof.
  pose proof (mapM_outcome_spec column_values
                (λ cell, flattens (ymap_get cell "value"))
                (map_to_list
                   ((λ yCell : gmap string JsValue, toJSON <$> yCell)
                      <$> row)).*2
                column_values_flattens) as H.
  destruct (mapM column_values _) as [values|e].
  - intros columnId yCell Hcell. rewrite Forall_forall in H.
    rewrite <- flattens_toJSON, <- ymap_get_toJSON. apply H.
    apply list_elem_of_fmap. exists (columnId, toJSON <$> yCell).
    split; [done|]. apply elem_of_map_to_list. by rewrite lookup_fmap, Hcell.
  - destruct H as [-> Hex]. split; [done|].
    apply Exists_exists in Hex as (cell & Hin & Hbad).
    apply list_elem_of_fmap in Hin as ([columnId cell'] & -> & Hin).
    apply elem_of_map_to_list in Hin. rewrite lookup_fmap in Hin.
    destruct (row !! columnId) as [yCell|] eqn:Hcell; simpl in Hin; [|done].
    injection Hin as <-. exists columnId, yCell. split; [done|].
    simpl in Hbad. by rewrite ymap_get_toJSON, flattens_toJSON in Hbad.
Qed.

Lemma push_column_values_flattens p rowIds acc :
  match push_column_values (serializedCells p) rowIds acc with
  | Returns _ =>
      ∀ rowId row columnId yCell,
        rowId ∈ rowIds → yCells p !! rowId = Some row →
        row !! columnId = Some yCell →
        flattens (ymap_get yCell "value") = true
  | Throws e =>
      e = TypeError ∧
      ∃ rowId row columnId yCell,
        rowId ∈ rowIds ∧ yCells p !! rowId = Some row ∧
        row !! columnId = Some yCell ∧
        flattens (ymap_get yCell "value") = false
  end.
Proof.
  revert acc. induction rowIds as [|rowId rest IH]; intros acc; simpl.
  - intros ? ? ? ? Hin. by apply elem_of_nil in Hin.
  - unfold serializedCells at 1. rewrite lookup_fmap.
    destruct (yCells p !! rowId) as [row|] eqn:Hrow; simpl.
    + pose proof (row_values_spec row) as Hvalues.
      destruct (mapM column_values _) as [values|e]; simpl.
      * specialize (IH (alter (λ values0, (values0 ++ concat values)%list)
                          rowId acc)).
        destruct (push_column_values _ rest _) as [dm|e].
        -- intros rowId' row' columnId yCell [->|Hin]%elem_of_cons Hrow' Hcell.
           ++ rewrite Hrow in Hrow'. injection Hrow' as <-. by eapply Hvalues.
           ++ by eapply IH.
        -- destruct IH as (-> & rowId' & row' & columnId & yCell & Hin & ?).
           split; [done|]. exists rowId', row', columnId, yCell.
           split; [by right | done].
      * destruct Hvalues as (-> & columnId & yCell & Hcell & Hbad).
        split; [done|]. exists rowId, row, columnId, yCell.
        split; [by left | done].
    + specialize (IH acc).
      destruct (push_column_values _ rest acc) as [dm|e].
      * intros rowId' row' columnId yCell [->|Hin]%elem_of_cons Hrow' Hcell;
          [congruence | by eapply IH].
      * destruct IH as (-> & rowId' & row' & columnId & yCell & Hin & ?).
        split; [done|]. exists rowId', row', columnId, yCell.
        split; [by right | done].
Qed.

(** X6. [_databaseMap] returns when no cell of a row of the table holds a
    list with a [null] or [undefined] item; when some cell does, the getter
    throws a [TypeError] (the read of [item.value]) and so does [_onSearch],
    whatever the query. *)
Theorem databaseMap_returns_iff tb :
  (rows_hold flattens tb → ∃ dm, _databaseMap tb = Returns dm) ∧
  (¬ rows_hold flattens tb →
   _databaseMap tb = Throws TypeError ∧
   ∀ toLocaleLowerCase value,
     _onSearch toLocaleLowerCase value tb = Throws TypeError).
Proof.
  assert (Hsearch : _databaseMap tb = Throws TypeError →
            ∀ toLocaleLowerCase value,
              _onSearch toLocaleLowerCase value tb = Throws TypeError).
  { intros Hthrow lower value.
    by apply onSearch_throws_with_databaseMap. }
  unfold _databaseMap in *.
  pose proof (push_column_values_flattens (page tb) (id <$> children tb)
    (foldl (λ dm child, <[id child := [VStr (default "" (text child))]]> dm)
       ∅ (children tb))) as H.
  destruct (push_column_values _ _ _) as [dm|e].
  - split; [by exists dm|]. intros Hnot. exfalso. apply Hnot.
    intros child row columnId yCell Hchild Hrow Hcell.
    apply (H (id child) row columnId yCell); [|done|done].
    by apply list_elem_of_fmap_2.
  - destruct H as (-> & rowId & row & columnId & yCell & Hin & Hrow & Hcell
                   & Hbad).
    split; [|by auto]. intros Hholds. exfalso.
    apply list_elem_of_fmap in Hin as (child & -> & Hchild).
    rewrite (Hholds child row columnId yCell) in Hbad; done.
Qed.

Lemma rows_hold_cells ok tb :
  map_Forall (λ _ (row : YRow),
                map_Forall (λ _ (yCell : YMap),
                              ok (ymap_get yCell "value") = true) row)
    (yCells (page tb)) →
  rows_hold ok tb.
Proof.
  intros H child row columnId yCell _ Hrow Hcell.
  by apply (H (id child) row Hrow columnId yCell).
Qed.

Lemma onSearch_filters_matching_rows_witness :
  ∃ tb', _onSearch ascii_lower_case " a " select_toolbar = Returns tb' ∧
         searchState tb' = Searching ∧
         filteredRowIds tb' `sublist_of` ["r1"; "r2"] ∧
         "r1" ∈ filteredRowIds tb'.
Proof.
  destruct (_databaseMap select_toolbar) as [dm|e] eqn:Hdm;
    [|vm_compute in Hdm; discriminate Hdm].
  destruct (_onSearch ascii_lower_case " a " select_toolbar) as [tb'|e]
    eqn:Hsearch; [|vm_compute in Hsearch; discriminate Hsearch].
  destruct (onSearch_filters_matching_rows ascii_lower_case " a "
              select_toolbar dm tb' Hdm Hsearch)
    as (_ & _ & _ & Hstate & Hsub & Hiff).
  exists tb'. split; [done|]. split; [done|]. split; [done|].
  apply Hiff. split; [by left|].
  vm_compute in Hdm. injection Hdm as <-.
  eexists. split; vm_compute; reflexivity.
Defined.

Lemma databaseMap_returns_iff_witness :
  rows_hold flattens example_toolbar ∧
  (∃ dm, _databaseMap example_toolbar = Returns dm) ∧
  ¬ rows_hold flattens broken_toolbar ∧
  _onSearch ascii_lower_case "x" broken_toolbar = Throws TypeError.
Proof.
  assert (Hok : rows_hold flattens example_toolbar).
  { apply rows_hold_cells, (bool_decide_unpack _). vm_compute. exact I. }
  assert (Hbad : ¬ rows_hold flattens broken_toolbar).
  { intros H.
    specialize (H {| id := "r1"; text := None |}
                  {[ "col" := new_yCell "col" (VArr [VUndefined]) ]}
                  "col" (new_yCell "col" (VArr [VUndefined]))).
    assert (false = true) as Hfalse; [|discriminate Hfalse].
    apply H; [by left | vm_compute; reflexivity | vm_compute; reflexivity]. }
  split; [done|]. split; [|split; [done|]].
  - by apply (databaseMap_returns_iff example_toolbar).
  - by apply (databaseMap_returns_iff broken_toolbar).
Defined.

End ToolbarFacts.

(** ** The drop callback *)

Module DragHandleFacts.
Import DragHandle.

Section OnDrop.

Context {BlockElement Model Point Rect : Type}.
Context `{EqDecision BlockElement}.
Variable getBlockElementsExcludeSubtrees : list BlockElement → list BlockElement.
Variable getModelByBlockElement : BlockElement → Model.
Variable isInSamePath : Model → Model → bool.
Variable getClosestFrameBlockElementById : string → option BlockElement.
Variable getRectByBlockElement : BlockElement → Rect.
Variable getParent : Model → option Model.
Variable model_id : Model → string.
Variable element_model : BlockElement → Model.

(** C8, as amended. When exactly one model is dragged, it is in the same
    path as the model of the drop target and the drop type is not ['none'],
    the callback returns without any effect: no undo checkpoint, no
    [moveBlocks], no new frame, no change of the selection. *)
Theorem same_path_drop_is_noop (point : Point) blockElements state type el :
  type ≠ TNone →
  getBlockElementsExcludeSubtrees blockElements = [el] →
  isInSamePath (model state) (getModelByBlockElement el) = true →
  onDropCallback getBlockElementsExcludeSubtrees getModelByBlockElement
    isInSamePath getClosestFrameBlockElementById getRectByBlockElement
    getParent model_id element_model
    point blockElements (Some state) type = ([], Returns tt).
Proof.
  intros Htype Hels Hpath. unfold onDropCallback. rewrite Hels. simpl.
  rewrite Hpath. by destruct type.
Qed.

(** C10. With a drop target and the drop type ['none'], and at least one
    element dragged, the callback takes the blank-area branch: it records an
    undo checkpoint and then moves the dragged models to a new frame at the
    drop point, with the rectangle of the first dragged element, and returns;
    this is what it does without a drop target, whatever the type. *)
Theorem none_type_drop_moves_to_new_frame (point : Point) blockElements state
  first rest :
  getBlockElementsExcludeSubtrees blockElements = first :: rest →
  onDropCallback getBlockElementsExcludeSubtrees getModelByBlockElement
    isInSamePath getClosestFrameBlockElementById getRectByBlockElement
    getParent model_id element_model
    point blockElements (Some state) TNone =
    ([CaptureSync;
      MoveBlocksToNewFrame (getModelByBlockElement <$> first :: rest) point
        (getRectByBlockElement first)], Returns tt) ∧
  ∀ type,
    onDropCallback getBlockElementsExcludeSubtrees getModelByBlockElement
      isInSamePath getClosestFrameBlockElementById getRectByBlockElement
      getParent model_id element_model
      point blockElements None type =
    onDropCallback getBlockElementsExcludeSubtrees getModelByBlockElement
      isInSamePath getClosestFrameBlockElementById getRectByBlockElement
      getParent model_id element_model
      point blockElements (Some state) TNone.
Proof.
  intros Hels. unfold onDropCallback. rewrite Hels. simpl. split; [done|].
  by intros [].
Qed.

End OnDrop.

Lemma same_path_drop_is_noop_witness :
  TBefore ≠ TNone ∧
  example_drop (3, 4) [1] (Some {| model := 2; element := 2 |}) TBefore =
    ([], Returns tt).
Proof.
  split; [discriminate|].
  apply (same_path_drop_is_noop (λ els, els) (λ el, el) (λ _ _, true)
           (λ _, Some 0) (λ el, el) (λ _, Some 0) (λ m, pretty m) (λ el, el)
           (3, 4) [1] {| model := 2; element := 2 |} TBefore 1);
    [discriminate | reflexivity | reflexivity].
Defined.

(** C8, as stated, fails: one model is dragged, it is in the same path as the
    model of the drop target, and the drop type is ['none']; the callback
    records an undo checkpoint and moves the model to a new frame. *)
Lemma same_path_drop_with_none_type_moves :
  example_drop (3, 4) [1] (Some {| model := 2; element := 2 |}) TNone =
    ([CaptureSync; MoveBlocksToNewFrame [1] (3, 4) 1], Returns tt) ∧
  example_drop (3, 4) [1] (Some {| model := 2; element := 2 |}) TNone ≠
    ([], Returns tt).
Proof. split; [reflexivity | discriminate]. Qed.

Lemma none_type_drop_moves_to_new_frame_witness :
  example_drop (3, 4) [1; 5] (Some {| model := 2; element := 2 |}) TNone =
    ([CaptureSync; MoveBlocksToNewFrame [1; 5] (3, 4) 1], Returns tt) ∧
  ∀ type, example_drop (3, 4) [1; 5] None type =
          example_drop (3, 4) [1; 5] (Some {| model := 2; element := 2 |}) TNone.
Proof.
  apply (none_type_drop_moves_to_new_frame (λ els, els) (λ el, el)
           (λ _ _, true) (λ _, Some 0) (λ el, el) (λ _, Some 0)
           (λ m, pretty m) (λ el, el)
           (3, 4) [1; 5] {| model := 2; element := 2 |} 1 [5]).
  reflexivity.
Defined.

(** ** More on the drop callback *)

Ltac drop_moved :=
  right; right; eexists;
  (split;
   [|split; [reflexivity
            |first [left; reflexivity | right; eexists _, _; reflexivity]]]);
  exact I.

Section OnDropMore.

Context {BlockElement Model Point Rect : Type}.
Context `{EqDecision BlockElement}.
Variable getBlockElementsExcludeSubtrees : list BlockElement → list BlockElement.
Variable getModelByBlockElement : BlockElement → Model.
Variable isInSamePath : Model → Model → bool.
Variable getClosestFrameBlockElementById : string → option BlockElement.
Variable getRectByBlockElement : BlockElement → Rect.
Variable getParent : Model → option Model.
Variable model_id : Model → string.
Variable element_model : BlockElement → Model.

(** X7. Every run of the drop callback has one of four shapes: it does
    nothing (and returns, or fails an assertion before any effect); or it
    records the undo checkpoint and then fails the assertion on the parent,
    having moved nothing; or it records the undo checkpoint, makes exactly one
    move ([moveBlocks] or [moveBlocksToNewFrame]) and returns; or it does the
    same and then sets the selection, at the drop point.  So no move is made
    without a checkpoint right before it, and no selection is set without a
    move. *)
Theorem drop_checkpoint_then_one_move (point : Point) blockElements
  editingState type :
  let run :=
    onDropCallback getBlockElementsExcludeSubtrees getModelByBlockElement
      isInSamePath getClosestFrameBlockElementById getRectByBlockElement
      getParent model_id element_model
      point blockElements editingState type in
  (run.1 = [] ∧ (run.2 = Returns tt ∨ run.2 = Throws AssertionError)) ∨
  (run.1 = [CaptureSync] ∧ run.2 = Throws AssertionError) ∨
  (∃ move, is_move move ∧ run.2 = Returns tt ∧
           (run.1 = [CaptureSync; move] ∨
            ∃ frameId blockId,
              run.1 = [CaptureSync; move;
                       SetSelection frameId true blockId point])).
Proof.
  cbv zeta. unfold onDropCallback.
  destruct (getBlockElementsExcludeSubtrees blockElements) as [|first rest];
    [by left; split; [|left]|].
  cbn [fmap list_fmap].
  destruct editingState as [state|]; [|drop_moved].
  destruct type; try drop_moved.
  all: destruct (bool_decide (length _ = 1) && isInSamePath _ _);
    [by left; split; [|left]|].
  all: destruct (getClosestFrameBlockElementById (model_id (model state)))
         as [targetFrame|]; [|by left; split; [|right]].
  all: destruct (getClosestFrameBlockElementById
                   (model_id (getModelByBlockElement first)))
         as [frame|]; [|by left; split; [|right]].
  all: try (destruct (getParent (model state)) as [parent|];
            [|by right; left]).
  all: cbn [assertExists run_bind run_ret perform app];
    case_bool_decide; drop_moved.
Qed.

End OnDropMore.

End DragHandleFacts.
